(** * Three_Motors_Chat.ino: encoder counting, bounds control, EEPROM persistence

    A shallow embedding of the Arduino sketch [arduino_code/Three_Motors_Chat.ino]
    (target: UNO R4, as the sketch's own comment says) and the properties its
    design document states about it.

    - machine integers are [Z] with the wrap-around of their C++ type written out;
    - the EEPROM is a finite map from byte addresses to byte values;
    - [float]/[double] are IEEE 754 binary32/binary64, computed with the
      Standard Library's [SpecFloat] operations, and compared with the real
      numbers they approximate;
    - the motor shield, the EEPROM and the serial port are observed through a
      trace of the commands the sketch issues. *)

From Stdlib Require Import ZArith List Bool Lia.
From Stdlib Require Import Floats.SpecFloat.
From Stdlib Require Import Reals Lra Machin.
From stdpp Require Import base option list gmap.

Local Open Scope Z_scope.

(** ** Machine integers *)

Module CInt.

(** [long] is 32 bits wide on the UNO boards; two's complement wrap-around. *)
Definition LONG_MIN : Z := - 2 ^ 31.
Definition LONG_MAX : Z := 2 ^ 31 - 1.

Definition to_long (z : Z) : Z := (z + 2 ^ 31) mod 2 ^ 32 - 2 ^ 31.
Definition to_ulong (z : Z) : Z := z mod 2 ^ 32.
Definition to_uint16 (z : Z) : Z := z mod 2 ^ 16.
Definition to_uint8 (z : Z) : Z := z mod 2 ^ 8.

Definition is_long (z : Z) : Prop := LONG_MIN <= z <= LONG_MAX.

End CInt.
Import CInt.

(** ** Little-endian byte strings *)

Module LE.

(** The [n] low bytes of [v], least significant first. *)
Fixpoint bytes_of (n : nat) (v : Z) : list Z :=
  match n with
  | O => []
  | S k => Z.land v 255 :: bytes_of k (Z.shiftr v 8)
  end.

(** The unsigned value of a byte string. *)
Fixpoint value_of (bs : list Z) : Z :=
  match bs with
  | [] => 0
  | b :: r => b mod 256 + 256 * value_of r
  end.

End LE.

(** ** The EEPROM: byte cells addressed from 0 *)

Module Eeprom.

(** Cells hold bytes; a cell that was never programmed reads [0xFF]
    (the erased state, which is also what the clearing sketch writes). *)
Definition read (e : gmap N Z) (a : N) : Z :=
  match e !! a with
  | Some b => b mod 256
  | None => 255
  end.

Definition write (a : N) (b : Z) (e : gmap N Z) : gmap N Z :=
  <[a := b mod 256]> e.

Fixpoint read_block (a : N) (n : nat) (e : gmap N Z) : list Z :=
  match n with
  | O => []
  | S k => read e a :: read_block (N.succ a) k e
  end.

Fixpoint write_block (a : N) (bs : list Z) (e : gmap N Z) : gmap N Z :=
  match bs with
  | [] => e
  | b :: r => write_block (N.succ a) r (write a b e)
  end.

End Eeprom.

(** ** The persisted record *)

(** [struct Persist { long p1,p2,p3; uint16_t magic; };] *)
Record Persist : Type := mkPersist { p1 : Z; p2 : Z; p3 : Z; magic : Z }.

(** [const uint16_t MAGIC=0xBEEF;] *)
Definition MAGIC : Z := 0xBEEF.

(** Object representation of a [Persist]: three 4-byte little-endian [long]s
    at offsets 0, 4 and 8 and the 2-byte marker at offset 12.  On the 32-bit
    target the object has two more bytes of tail padding, which [EEPROM.put]
    also writes, with unspecified values, to the cells 14 and 15; the sketch
    never reads these cells and the model leaves them alone, so nothing below
    is stated about them: cells are said to be untouched from address 16
    on. *)
Definition Persist_bytes (p : Persist) : list Z :=
  LE.bytes_of 4 (p1 p) ++ LE.bytes_of 4 (p2 p) ++ LE.bytes_of 4 (p3 p)
  ++ LE.bytes_of 2 (magic p).

Definition Persist_of_bytes (bs : list Z) : Persist :=
  {| p1 := to_long (LE.value_of (take 4 bs));
     p2 := to_long (LE.value_of (take 4 (drop 4 bs)));
     p3 := to_long (LE.value_of (take 4 (drop 8 bs)));
     magic := LE.value_of (take 2 (drop 12 bs)) |}.

(** [EEPROM.get(a,p)] and [EEPROM.put(a,p)] copy the object representation
    from and to the cells starting at [a]. *)
Definition EEPROM_get (a : N) (e : gmap N Z) : Persist :=
  Persist_of_bytes (Eeprom.read_block a 14 e).

Definition EEPROM_put (a : N) (p : Persist) (e : gmap N Z) : gmap N Z :=
  Eeprom.write_block a (Persist_bytes p) e.

(** [bool loadEEPROM(long &o1,long &o2,long &o3)]: the three reference
    parameters are passed in and returned next to the result. *)
Definition loadEEPROM (o : Z * Z * Z) (e : gmap N Z) : bool * (Z * Z * Z) :=
  let p := EEPROM_get 0 e in
  if magic p =? MAGIC then (true, (p1 p, p2 p, p3 p)) else (false, o).

(** [void saveEEPROM(long o1,long o2,long o3)] *)
Definition saveEEPROM (o1 o2 o3 : Z) (e : gmap N Z) : gmap N Z :=
  let p := {| p1 := o1; p2 := o2; p3 := o3; magic := MAGIC |} in
  EEPROM_put 0 p e.

(** The stored record is meaningful exactly when its marker is the sentinel. *)
Definition valid_store (e : gmap N Z) : bool := magic (EEPROM_get 0 e) =? MAGIC.

(** ** Floating point: [float] is binary32, [double] is binary64 *)

Module Float.

Definition mul32 : spec_float -> spec_float -> spec_float := SFmul 24 128.
Definition mul64 : spec_float -> spec_float -> spec_float := SFmul 53 1024.
Definition div64 : spec_float -> spec_float -> spec_float := SFdiv 53 1024.

(** Conversions between the formats and from integers round to nearest,
    ties to even; widening is exact. *)
Definition to_float (x : spec_float) : spec_float :=
  match x with
  | S754_finite s m e => binary_round 24 128 s m e
  | _ => x
  end.

Definition to_double (x : spec_float) : spec_float :=
  match x with
  | S754_finite s m e => binary_round 53 1024 s m e
  | _ => x
  end.

Definition float_of_Z (z : Z) : spec_float := binary_normalize 24 128 z 0 false.
Definition double_of_Z (z : Z) : spec_float := binary_normalize 53 1024 z 0 false.

(** [int(x)]: the fractional part is discarded (truncation toward zero).
    The conversion is undefined for NaN, the infinities and values outside
    the range of [int] (32 bits on the target): [None]. *)
Definition trunc (x : spec_float) : Z :=
  match x with
  | S754_finite s m e => cond_Zopp s (Z.shiftl (Zpos m) e)
  | _ => 0
  end.

Definition int_of_float (x : spec_float) : option Z :=
  match x with
  | S754_zero _ => Some 0
  | S754_finite _ _ _ =>
      let z := trunc x in
      if (- 2 ^ 31 <=? z) && (z <=? 2 ^ 31 - 1) then Some z else None
  | _ => None
  end.

(** The real number a floating-point datum stands for (0 by convention for
    the infinities and NaN). *)
Definition to_R (x : spec_float) : R :=
  match x with
  | S754_finite s m e => (IZR (cond_Zopp s (Zpos m)) * powerRZ 2 e)%R
  | _ => 0%R
  end.

(** Modelled from the spec: the macro [PI] comes from [Arduino.h], which is
    not part of the sources; it is the literal
    [3.1415926535897932384626433832795], that is the binary64 number nearest
    to π, [0x1.921FB54442D18p+1]. *)
Definition PI : spec_float := S754_finite false 7074237752028440 (-51).

End Float.

(** ** The sketch's globals *)

(** The three motor/encoder channels. *)
Inductive Channel : Type := Ch1 | Ch2 | Ch3.

#[global] Instance Channel_eq_dec : EqDecision Channel.
Proof. solve_decision. Defined.

(** Run commands of the motor shield library. *)
Inductive Direction : Type := FORWARD | BACKWARD | BRAKE | RELEASE.

#[global] Instance Direction_eq_dec : EqDecision Direction.
Proof. solve_decision. Defined.

(** What the shield holds for one [Adafruit_DCMotor]: the speed last set
    ([setSpeed] takes a [uint8_t]) and the run command last given. *)
Record DCMotor : Type := mkMotor { speed : Z; dir : Direction }.

(** The places of the sketch that call [saveEEPROM]: the initialisation in
    [setup] and the flush test of each channel in [loop]. *)
Inductive Site : Type := AtSetup | AtFlush (ch : Channel).

#[global] Instance Site_eq_dec : EqDecision Site.
Proof. solve_decision. Defined.

(** Commands sent to the collaborators, in program order.  A [Put] is an
    [EEPROM.put] of a record, labelled with the place that asked for it. *)
Inductive Event : Type :=
| SetSpeed (ch : Channel) (v : Z)
| Run (ch : Channel) (d : Direction)
| Put (site : Site) (p : Persist)
| SerialPrint (c1 st1 c2 st2 c3 st3 : Z).

(** Targets and parameters ([// Ziele/Parameter]); never assigned after
    their initialisation. *)
Record Params : Type := mkParams {
  distance1 : spec_float; distance2 : spec_float; distance3 : spec_float;
  motorspeed1 : Z; motorspeed2 : Z; motorspeed3 : Z;
  winch_diameter : spec_float;
  hall_feedback_resolution : spec_float;
  delaytime : Z
}.

(** The initialisers written in the sketch. *)
Definition sketch : Params :=
  {| distance1 := Float.float_of_Z 25;
     distance2 := Float.float_of_Z 35;
     distance3 := Float.float_of_Z 35;
     motorspeed1 := 30; motorspeed2 := 40; motorspeed3 := 40;
     winch_diameter := Float.to_float (Float.double_of_Z 7);
     hall_feedback_resolution :=
       Float.to_float (Float.div64 (Float.double_of_Z 1050) (Float.double_of_Z 2));
     delaytime := 100 |}.

(** The mutable globals, the EEPROM, the motors and the command trace. *)
Record State : Type := mkState {
  cnt1 : Z; cnt2 : Z; cnt3 : Z;
  steps1 : Z; steps2 : Z; steps3 : Z;
  lastChange1 : Z; lastChange2 : Z; lastChange3 : Z;
  lastSaved1 : Z; lastSaved2 : Z; lastSaved3 : Z;
  eeprom : gmap N Z;
  m1 : DCMotor; m2 : DCMotor; m3 : DCMotor;
  trace : list Event
}.

(** State at power-on: every global at its initialiser, the motors released,
    whatever the EEPROM holds. *)
Definition power_on (e : gmap N Z) : State :=
  {| cnt1 := 0; cnt2 := 0; cnt3 := 0;
     steps1 := 0; steps2 := 0; steps3 := 0;
     lastChange1 := 0; lastChange2 := 0; lastChange3 := 0;
     lastSaved1 := 0; lastSaved2 := 0; lastSaved3 := 0;
     eeprom := e;
     m1 := mkMotor 0 RELEASE; m2 := mkMotor 0 RELEASE; m3 := mkMotor 0 RELEASE;
     trace := [] |}.

Section Assignments.

Variable s : State.

Definition set_cnt (c1 c2 c3 : Z) : State :=
    mkState c1 c2 c3 (steps1 s) (steps2 s) (steps3 s)
      (lastChange1 s) (lastChange2 s) (lastChange3 s)
      (lastSaved1 s) (lastSaved2 s) (lastSaved3 s)
      (eeprom s) (m1 s) (m2 s) (m3 s) (trace s).

Definition set_steps (t1 t2 t3 : Z) : State :=
    mkState (cnt1 s) (cnt2 s) (cnt3 s) t1 t2 t3
      (lastChange1 s) (lastChange2 s) (lastChange3 s)
      (lastSaved1 s) (lastSaved2 s) (lastSaved3 s)
      (eeprom s) (m1 s) (m2 s) (m3 s) (trace s).

Definition set_lastChange (t1 t2 t3 : Z) : State :=
    mkState (cnt1 s) (cnt2 s) (cnt3 s) (steps1 s) (steps2 s) (steps3 s)
      t1 t2 t3
      (lastSaved1 s) (lastSaved2 s) (lastSaved3 s)
      (eeprom s) (m1 s) (m2 s) (m3 s) (trace s).

Definition set_lastSaved (v1 v2 v3 : Z) : State :=
    mkState (cnt1 s) (cnt2 s) (cnt3 s) (steps1 s) (steps2 s) (steps3 s)
      (lastChange1 s) (lastChange2 s) (lastChange3 s)
      v1 v2 v3
      (eeprom s) (m1 s) (m2 s) (m3 s) (trace s).

Definition set_eeprom (e : gmap N Z) : State :=
    mkState (cnt1 s) (cnt2 s) (cnt3 s) (steps1 s) (steps2 s) (steps3 s)
      (lastChange1 s) (lastChange2 s) (lastChange3 s)
      (lastSaved1 s) (lastSaved2 s) (lastSaved3 s)
      e (m1 s) (m2 s) (m3 s) (trace s).

Definition set_motors (a b c : DCMotor) : State :=
    mkState (cnt1 s) (cnt2 s) (cnt3 s) (steps1 s) (steps2 s) (steps3 s)
      (lastChange1 s) (lastChange2 s) (lastChange3 s)
      (lastSaved1 s) (lastSaved2 s) (lastSaved3 s)
      (eeprom s) a b c (trace s).

Definition emit (ev : Event) : State :=
    mkState (cnt1 s) (cnt2 s) (cnt3 s) (steps1 s) (steps2 s) (steps3 s)
      (lastChange1 s) (lastChange2 s) (lastChange3 s)
      (lastSaved1 s) (lastSaved2 s) (lastSaved3 s)
      (eeprom s) (m1 s) (m2 s) (m3 s) (trace s ++ [ev]).

End Assignments.

(** Per-channel views of the flat globals. *)
Definition cnt (ch : Channel) (s : State) : Z :=
  match ch with Ch1 => cnt1 s | Ch2 => cnt2 s | Ch3 => cnt3 s end.
Definition steps (ch : Channel) (s : State) : Z :=
  match ch with Ch1 => steps1 s | Ch2 => steps2 s | Ch3 => steps3 s end.
Definition lastChange (ch : Channel) (s : State) : Z :=
  match ch with Ch1 => lastChange1 s | Ch2 => lastChange2 s | Ch3 => lastChange3 s end.
Definition lastSaved (ch : Channel) (s : State) : Z :=
  match ch with Ch1 => lastSaved1 s | Ch2 => lastSaved2 s | Ch3 => lastSaved3 s end.
Definition motor (ch : Channel) (s : State) : DCMotor :=
  match ch with Ch1 => m1 s | Ch2 => m2 s | Ch3 => m3 s end.
Definition motorspeed (ch : Channel) (g : Params) : Z :=
  match ch with Ch1 => motorspeed1 g | Ch2 => motorspeed2 g | Ch3 => motorspeed3 g end.
Definition distance (ch : Channel) (g : Params) : spec_float :=
  match ch with Ch1 => distance1 g | Ch2 => distance2 g | Ch3 => distance3 g end.

(** ** The motor shield *)

(** [m->setSpeed(v)]: the argument is converted to [uint8_t]. *)
Definition setSpeed (ch : Channel) (v : Z) (s : State) : State :=
  let v8 := to_uint8 v in
  let upd (m : DCMotor) := mkMotor v8 (dir m) in
  let s' := match ch with
            | Ch1 => set_motors s (upd (m1 s)) (m2 s) (m3 s)
            | Ch2 => set_motors s (m1 s) (upd (m2 s)) (m3 s)
            | Ch3 => set_motors s (m1 s) (m2 s) (upd (m3 s))
            end in
  emit s' (SetSpeed ch v8).

(** [m->run(d)] *)
Definition run (ch : Channel) (d : Direction) (s : State) : State :=
  let upd (m : DCMotor) := mkMotor (speed m) d in
  let s' := match ch with
            | Ch1 => set_motors s (upd (m1 s)) (m2 s) (m3 s)
            | Ch2 => set_motors s (m1 s) (upd (m2 s)) (m3 s)
            | Ch3 => set_motors s (m1 s) (m2 s) (upd (m3 s))
            end in
  emit s' (Run ch d).

(** A call of [saveEEPROM] from the sketch: the store is rewritten and the
    [EEPROM.put] is recorded. *)
Definition call_saveEEPROM (site : Site) (o1 o2 o3 : Z) (s : State) : State :=
  emit (set_eeprom s (saveEEPROM o1 o2 o3 (eeprom s)))
       (Put site {| p1 := o1; p2 := o2; p3 := o3; magic := MAGIC |}).

(** ** Interrupt service routines *)

(** [void isrEnc1(){ bool a=digitalRead(ENC1_A), b=digitalRead(ENC1_B);
     (a==b)?cnt1++:cnt1--; lastChange1=millis(); }]
    [a] and [b] are the two levels read, [now] the value [millis()] returns. *)
Definition isrEnc1 (a b : bool) (now : Z) (s : State) : State :=
  let c := if Bool.eqb a b then to_long (cnt1 s + 1) else to_long (cnt1 s - 1) in
  set_lastChange (set_cnt s c (cnt2 s) (cnt3 s))
    now (lastChange2 s) (lastChange3 s).

Definition isrEnc2 (a b : bool) (now : Z) (s : State) : State :=
  let c := if Bool.eqb a b then to_long (cnt2 s + 1) else to_long (cnt2 s - 1) in
  set_lastChange (set_cnt s (cnt1 s) c (cnt3 s))
    (lastChange1 s) now (lastChange3 s).

Definition isrEnc3 (a b : bool) (now : Z) (s : State) : State :=
  let c := if Bool.eqb a b then to_long (cnt3 s + 1) else to_long (cnt3 s - 1) in
  set_lastChange (set_cnt s (cnt1 s) (cnt2 s) c)
    (lastChange1 s) (lastChange2 s) now.

(** An edge on the A line of a channel, as the attached handler sees it. *)
Record Edge : Type := mkEdge { e_ch : Channel; e_a : bool; e_b : bool; e_now : Z }.

(** [attachInterrupt(digitalPinToInterrupt(ENCk_A), isrEnck, CHANGE)] *)
Definition isr (ed : Edge) (s : State) : State :=
  match e_ch ed with
  | Ch1 => isrEnc1 (e_a ed) (e_b ed) (e_now ed) s
  | Ch2 => isrEnc2 (e_a ed) (e_b ed) (e_now ed) s
  | Ch3 => isrEnc3 (e_a ed) (e_b ed) (e_now ed) s
  end.

Definition isrs (eds : list Edge) (s : State) : State := fold_left (fun s ed => isr ed s) eds s.

(** ** [setup()] *)

(** [float stepsPerMM = hall_feedback_resolution / (2.0*PI*(winch_diameter/2.0));]
    The literals are [double]s, so the right-hand side is computed in binary64
    and rounded to binary32 by the initialisation. *)
Definition stepsPerMM (g : Params) : spec_float :=
  let two := Float.double_of_Z 2 in
  Float.to_float
    (Float.div64 (Float.to_double (hall_feedback_resolution g))
       (Float.mul64 (Float.mul64 two Float.PI)
          (Float.div64 (Float.to_double (winch_diameter g)) two))).

(** [stepsk = int(distancek*stepsPerMM);] *)
Definition target_steps (d spmm : spec_float) : option Z :=
  Float.int_of_float (Float.mul32 d spmm).

(** [noInterrupts(); cnt1=o1; cnt2=o2; cnt3=o3; interrupts();
     lastSaved1=cnt1; lastSaved2=cnt2; lastSaved3=cnt3;]
    (no handler is attached yet, so the counters are read back unchanged) *)
Definition adopt (o1 o2 o3 : Z) (s : State) : State :=
  let s := set_cnt s o1 o2 o3 in
  set_lastSaved s (cnt1 s) (cnt2 s) (cnt3 s).

(** [long o1=0,o2=0,o3=0;
     if(!loadEEPROM(o1,o2,o3)){ o1=o2=o3=0; saveEEPROM(o1,o2,o3); }]
    followed by the adoption of [o1 o2 o3]. *)
Definition restore (s : State) : State :=
  match loadEEPROM (0, 0, 0) (eeprom s) with
  | (true, (o1, o2, o3)) => adopt o1 o2 o3 s
  | (false, _) => adopt 0 0 0 (call_saveEEPROM AtSetup 0 0 0 s)
  end.

(** Lines 66-70: speeds and initial direction. *)
Definition start_motors (g : Params) (s : State) : State :=
  let s := run Ch1 FORWARD (setSpeed Ch1 (motorspeed1 g) s) in
  let s := run Ch2 FORWARD (setSpeed Ch2 (motorspeed2 g) s) in
  run Ch3 FORWARD (setSpeed Ch3 (motorspeed3 g) s).

(** [void setup()].  The pin modes and the attachment of the handlers set up
    the delivery of [Edge]s and change none of the globals.  The result is
    [None] when a conversion to [int] is undefined. *)
Definition setup (g : Params) (s : State) : option State :=
  let s := restore s in
  let spmm := stepsPerMM g in
  match target_steps (distance1 g) spmm,
        target_steps (distance2 g) spmm,
        target_steps (distance3 g) spmm with
  | Some t1, Some t2, Some t3 => Some (start_motors g (set_steps s t1 t2 t3))
  | _, _, _ => None
  end.

(** ** [loop()] *)

(** [const unsigned long T_IDLE=5000;] *)
Definition T_IDLE : Z := 5000.

(** [if(c1>=steps1) m1->run(BACKWARD); else if(c1<0) m1->run(FORWARD);] *)
Definition bounds1 (c1 : Z) (s : State) : State :=
  if c1 >=? steps1 s then run Ch1 BACKWARD s
  else if c1 <? 0 then run Ch1 FORWARD s else s.

Definition bounds2 (c2 : Z) (s : State) : State :=
  if c2 >=? steps2 s then run Ch2 BACKWARD s
  else if c2 <? 0 then run Ch2 FORWARD s else s.

Definition bounds3 (c3 : Z) (s : State) : State :=
  if c3 >=? steps3 s then run Ch3 BACKWARD s
  else if c3 <? 0 then run Ch3 FORWARD s else s.

(** [if(millis()-lastChange1>T_IDLE && c1!=lastSaved1)
      { lastSaved1=c1; saveEEPROM(lastSaved1,lastSaved2,lastSaved3); }]
    [t] is what this call of [millis()] returns; the subtraction is done in
    [unsigned long]. *)
Definition idle1 (t c1 : Z) (s : State) : bool :=
  (T_IDLE <? to_ulong (t - lastChange1 s)) && negb (c1 =? lastSaved1 s).
Definition idle2 (t c2 : Z) (s : State) : bool :=
  (T_IDLE <? to_ulong (t - lastChange2 s)) && negb (c2 =? lastSaved2 s).
Definition idle3 (t c3 : Z) (s : State) : bool :=
  (T_IDLE <? to_ulong (t - lastChange3 s)) && negb (c3 =? lastSaved3 s).

Definition flush1 (t c1 : Z) (s : State) : State :=
  if idle1 t c1 s then
    let s := set_lastSaved s c1 (lastSaved2 s) (lastSaved3 s) in
    call_saveEEPROM (AtFlush Ch1) (lastSaved1 s) (lastSaved2 s) (lastSaved3 s) s
  else s.

Definition flush2 (t c2 : Z) (s : State) : State :=
  if idle2 t c2 s then
    let s := set_lastSaved s (lastSaved1 s) c2 (lastSaved3 s) in
    call_saveEEPROM (AtFlush Ch2) (lastSaved1 s) (lastSaved2 s) (lastSaved3 s) s
  else s.

Definition flush3 (t c3 : Z) (s : State) : State :=
  if idle3 t c3 s then
    let s := set_lastSaved s (lastSaved1 s) (lastSaved2 s) c3 in
    call_saveEEPROM (AtFlush Ch3) (lastSaved1 s) (lastSaved2 s) (lastSaved3 s) s
  else s.

(** The [Serial.print] calls of one iteration: counts against targets. *)
Definition telemetry (c1 c2 c3 : Z) (s : State) : State :=
  emit s (SerialPrint c1 (steps1 s) c2 (steps2 s) c3 (steps3 s)).

(** [void loop()]: the counters are copied with interrupts off, then the
    bounds, the three flush tests and the telemetry work on the copies.
    [t1 t2 t3] are the values of the three calls of [millis()]. *)
Definition loop (t1 t2 t3 : Z) (s : State) : State :=
  let c1 := cnt1 s in
  let c2 := cnt2 s in
  let c3 := cnt3 s in
  let s := bounds1 c1 s in
  let s := bounds2 c2 s in
  let s := bounds3 c3 s in
  let s := flush1 t1 c1 s in
  let s := flush2 t2 c2 s in
  let s := flush3 t3 c3 s in
  telemetry c1 c2 c3 s.

(** Handlers may run between any two statements once interrupts are on
    again: [pre k] lists the edges served just before statement [k]
    (0-2 the bounds tests, 3-5 the flush tests, 6 the telemetry). *)
Definition loop_preempted (pre : nat -> list Edge) (t1 t2 t3 : Z) (s : State) : State :=
  let c1 := cnt1 s in
  let c2 := cnt2 s in
  let c3 := cnt3 s in
  let s := bounds1 c1 (isrs (pre 0%nat) s) in
  let s := bounds2 c2 (isrs (pre 1%nat) s) in
  let s := bounds3 c3 (isrs (pre 2%nat) s) in
  let s := flush1 t1 c1 (isrs (pre 3%nat) s) in
  let s := flush2 t2 c2 (isrs (pre 4%nat) s) in
  let s := flush3 t3 c3 (isrs (pre 5%nat) s) in
  telemetry c1 c2 c3 (isrs (pre 6%nat) s).

(** Channel-indexed names for the three copies of each statement. *)
Definition bounds (ch : Channel) : Z -> State -> State :=
  match ch with Ch1 => bounds1 | Ch2 => bounds2 | Ch3 => bounds3 end.
Definition idle (ch : Channel) : Z -> Z -> State -> bool :=
  match ch with Ch1 => idle1 | Ch2 => idle2 | Ch3 => idle3 end.
Definition flush (ch : Channel) : Z -> Z -> State -> State :=
  match ch with Ch1 => flush1 | Ch2 => flush2 | Ch3 => flush3 end.

(** States the running sketch can be in between statements: after [setup]
    from power-on, then any interleaving of edges and loop iterations. *)
Inductive reachable (g : Params) : State -> Prop :=
| reach_setup e s : setup g (power_on e) = Some s -> reachable g s
| reach_isr ed s : reachable g s -> reachable g (isr ed s)
| reach_loop pre t1 t2 t3 s :
    reachable g s -> reachable g (loop_preempted pre t1 t2 t3 s).

(** The records written by the [EEPROM.put]s of a trace. *)
Definition puts (tr : list Event) : list Persist :=
  omap (fun ev => match ev with Put _ p => Some p | _ => None end) tr.

(** The records written by the flush test of one channel. *)
Definition flushes (ch : Channel) (tr : list Event) : list Persist :=
  omap (fun ev => match ev with
                  | Put site p => if decide (site = AtFlush ch) then Some p else None
                  | _ => None
                  end) tr.

(** The run commands a trace sends to one motor. *)
Definition runs (ch : Channel) (tr : list Event) : list Direction :=
  omap (fun ev => match ev with
                  | Run ch' d => if decide (ch' = ch) then Some d else None
                  | _ => None
                  end) tr.

(** The run command, if any, the bounds test sends for snapshot [c] and
    target [T]. *)
Definition bounds_cmd (c T : Z) : option Direction :=
  if c >=? T then Some BACKWARD else if c <? 0 then Some FORWARD else None.

(** ** Footprints of statements *)

(** The motor side of a channel: its target, its motor and the run commands
    sent to it so far. *)
Definition motor_view (k : Channel) (s : State) : Z * DCMotor * list Direction :=
  (steps k s, motor k s, runs k (trace s)).

(** The storage side: the EEPROM, the [EEPROM.put]s issued so far and the
    last saved values. *)
Definition store_log (tr : list Event) : list (Site * Persist) :=
  omap (fun ev => match ev with Put site p => Some (site, p) | _ => None end) tr.

Definition store_view (s : State) : gmap N Z * list (Site * Persist) * (Z * Z * Z) :=
  (eeprom s, store_log (trace s), (lastSaved1 s, lastSaved2 s, lastSaved3 s)).

(** The last saved values with the one of channel [ch] replaced by [c]. *)
Definition with_saved (ch : Channel) (c : Z) (v : Z * Z * Z) : Z * Z * Z :=
  match ch, v with
  | Ch1, (_, b, d) => (c, b, d)
  | Ch2, (a, _, d) => (a, c, d)
  | Ch3, (a, b, _) => (a, b, c)
  end.

Definition record_of (v : Z * Z * Z) : Persist :=
  let '(a, b, d) := v in {| p1 := a; p2 := b; p3 := d; magic := MAGIC |}.

(** The effect on the storage side of a flush test whose condition is [fire]. *)
Definition flushed (fire : bool) (ch : Channel) (c : Z)
    (v : gmap N Z * list (Site * Persist) * (Z * Z * Z))
    : gmap N Z * list (Site * Persist) * (Z * Z * Z) :=
  if fire then
    let '(e, log, saved) := v in
    let saved' := with_saved ch c saved in
    let '(a, b, d) := saved' in
    (saveEEPROM a b d e, log ++ [(AtFlush ch, record_of saved')], saved')
  else v.

(** The field of a record that belongs to a channel. *)
Definition field (ch : Channel) (p : Persist) : Z :=
  match ch with Ch1 => p1 p | Ch2 => p2 p | Ch3 => p3 p end.

(** What the handlers own: the counter and the time stamp of a channel. *)
Definition encoder_view (k : Channel) (s : State) : Z * Z :=
  (cnt k s, lastChange k s).

Definition motor_silent (f : State -> State) : Prop :=
  forall s k, motor_view k (f s) = motor_view k s.
Definition store_silent (f : State -> State) : Prop :=
  forall s, store_view (f s) = store_view s.
Definition encoder_silent (f : State -> State) : Prop :=
  forall s k, encoder_view k (f s) = encoder_view k s.

(** The effect of a run command, or of none, on the motor side. *)
Definition commanded (cmd : option Direction)
    (v : Z * DCMotor * list Direction) : Z * DCMotor * list Direction :=
  match cmd, v with
  | Some d, (T, m, rs) => (T, mkMotor (speed m) d, rs ++ [d])
  | None, _ => v
  end.

(** The flush condition as a function of the values it reads. *)
Definition idle_test (t c changed saved : Z) : bool :=
  (T_IDLE <? to_ulong (t - changed)) && negb (c =? saved).

(** The value of the [k]-th call of [millis()] in an iteration. *)
Definition millis_of (k : Channel) (t1 t2 t3 : Z) : Z :=
  match k with Ch1 => t1 | Ch2 => t2 | Ch3 => t3 end.

(** [earlier k ch]: the flush test of channel [k] is written before the one
    of channel [ch] in the body of [loop]. *)
Definition earlier (k ch : Channel) : bool :=
  match k, ch with
  | Ch1, Ch2 | Ch1, Ch3 | Ch2, Ch3 => true
  | _, _ => false
  end.

(** ** Concrete states used to exercise the statements *)

(** A state with the given targets and counters, everything else as at
    power-on with an erased EEPROM. *)
Definition sample (T1 T2 T3 c1 c2 c3 : Z) : State :=
  set_cnt (set_steps (power_on ∅) T1 T2 T3) c1 c2 c3.

(** No edge is served during the iteration. *)
Definition quiet : nat -> list Edge := fun _ => [].

(** ** Sums of quadrature contributions *)

(** What one edge contributes to its channel: [+1] when the two levels
    agree, [-1] when they differ. *)
Definition contribution (ed : Edge) : Z :=
  if Bool.eqb (e_a ed) (e_b ed) then 1 else -1.

(** The signed sum of the contributions of the edges of channel [ch]. *)
Fixpoint signed_sum (ch : Channel) (eds : list Edge) : Z :=
  match eds with
  | [] => 0
  | ed :: r =>
      if decide (e_ch ed = ch) then contribution ed + signed_sum ch r
      else signed_sum ch r
  end.

(** The storage side is in order: the EEPROM holds a valid record and every
    record written so far carries the sentinel. *)
Definition view_ok (v : gmap N Z * list (Site * Persist) * (Z * Z * Z)) : Prop :=
  valid_store v.1.1 = true /\ Forall (fun sp : Site * Persist => magic sp.2 = MAGIC) v.1.2.

(** ** The calibration in exact arithmetic *)

Module Exact.

(** [stepsPerUnitLength = encoderResolution / (π * spoolDiameter)] *)
Definition stepsPerUnitLength (encoderResolution spoolDiameter : R) : R :=
  (encoderResolution / (PI * spoolDiameter))%R.

(** [distance * stepsPerUnitLength], before any conversion to an integer. *)
Definition steps (distance encoderResolution spoolDiameter : R) : R :=
  (distance * stepsPerUnitLength encoderResolution spoolDiameter)%R.

(** [z] is [x] rounded to a nearest integer, whatever the rule for ties. *)
Definition nearest (z : Z) (x : R) : Prop := (Rabs (x - IZR z) <= / 2)%R.

(** [z] is [x] with its fractional part discarded (truncation toward zero). *)
Definition truncated (z : Z) (x : R) : Prop :=
  (Rabs (IZR z) <= Rabs x < Rabs (IZR z) + 1)%R /\ (0 <= IZR z * x)%R.

End Exact.

(** ** Invariants of the running sketch *)

(** The counters are values of type [long]. *)
Definition counters_ok (s : State) : Prop := forall k, is_long (cnt k s).

(** The last saved values are values of type [long] and the EEPROM holds
    exactly these three values under the sentinel. *)
Definition mirror_ok (v : gmap N Z * list (Site * Persist) * (Z * Z * Z)) : Prop :=
  let '(e, _, (a, b, d)) := v in
  EEPROM_get 0 e = {| p1 := a; p2 := b; p3 := d; magic := MAGIC |} /\
  is_long a /\ is_long b /\ is_long d.

(** The motor side of a channel under the parameters [g]: the target is the
    calibrated one, the speed is the configured one, and the motor has only
    ever been told to run forward or backward. *)
Definition drive_ok (g : Params) (k : Channel)
    (v : Z * DCMotor * list Direction) : Prop :=
  let '(T, m, rs) := v in
  target_steps (distance k g) (stepsPerMM g) = Some T /\
  speed m = to_uint8 (motorspeed k g) /\
  (dir m = FORWARD \/ dir m = BACKWARD) /\
  Forall (fun d => d = FORWARD \/ d = BACKWARD) rs.

(** ** Repeated iterations *)

(** The Arduino core calls [loop()] again and again; each element of [ts]
    gives the three values of [millis()] of one iteration.  No edge is
    served in between. *)
Fixpoint loops (ts : list (Z * Z * Z)) (s : State) : State :=
  match ts with
  | [] => s
  | (t1, t2, t3) :: r => loops r (loop t1 t2 t3 s)
  end.

(** The sketch just after [setup] on an erased EEPROM, and after one edge on
    channel 1 followed by an iteration six seconds later. *)
Definition booted : State :=
  start_motors sketch (set_steps (restore (power_on ∅)) 596 835 835).

Definition after_edge : State :=
  loop_preempted quiet 6000 6000 6000 (isr (mkEdge Ch1 true true 10) booted).

(** ** The sketch that clears the EEPROM *)

Module Clear.

(** [EEPROM.update(a, b)]: the cell is programmed only when it does not
    already hold [b]; the second component counts the cells programmed. *)
Definition EEPROM_update (a : N) (b : Z) (e : gmap N Z) : gmap N Z * nat :=
  if Eeprom.read e a =? to_uint8 b then (e, 0%nat)
  else (Eeprom.write a b e, 1%nat).

(** [for (int i = ...; i < EEPROM.length(); i++) EEPROM.update(i, 0xFF);]
    from index [i] with [n] cells to go. *)
Fixpoint sweep (i : N) (n : nat) (e : gmap N Z) : gmap N Z * nat :=
  match n with
  | O => (e, 0%nat)
  | S k =>
      let '(e1, w1) := EEPROM_update i 0xFF e in
      let '(e2, w2) := sweep (N.succ i) k e1 in
      (e2, (w1 + w2)%nat)
  end.

(** [void setup()] of the clearing sketch on a device of [EEPROM.length()]
    cells (the two messages on the serial port are left out): the new
    content and the number of cells programmed. *)
Definition setup (length : nat) (e : gmap N Z) : gmap N Z * nat :=
  sweep 0 length e.

(** The cells in [[i, i + n)] that do not read [0xFF]. *)
Fixpoint dirty (i : N) (n : nat) (e : gmap N Z) : nat :=
  match n with
  | O => 0%nat
  | S k =>
      ((if (Eeprom.read e i =? 255)%Z then 0 else 1) + dirty (N.succ i) k e)%nat
  end.

End Clear.

(** ** The tensioning sketch *)

Module Tension.

(** [void setup()] of [Wire_Tensioning.ino]: motor 2 at speed 20, motors 1
    and 3 at speed 0, all three told to run forward. *)
Definition setup (s : State) : State :=
  let s := run Ch1 FORWARD (setSpeed Ch1 0 s) in
  let s := run Ch2 FORWARD (setSpeed Ch2 20 s) in
  run Ch3 FORWARD (setSpeed Ch3 0 s).

(** [void loop()] is empty. *)
Definition loop (s : State) : State := s.

End Tension.

(** The sign bit of a floating-point datum ([false] for NaN). *)
Definition sign_bit (x : spec_float) : bool :=
  match x with
  | S754_zero s | S754_infinity s | S754_finite s _ _ => s
  | S754_nan => false
  end.

(** All the edges served during a preempted iteration, in order. *)
Definition served (pre : nat -> list Edge) : list Edge :=
  pre 0%nat ++ pre 1%nat ++ pre 2%nat ++ pre 3%nat ++ pre 4%nat ++ pre 5%nat
  ++ pre 6%nat.

(** The edges of one channel among a list of edges. *)
Definition edges_of (ch : Channel) (eds : list Edge) : list Edge :=
  filter (fun ed => e_ch ed = ch) eds.

(** ** Flush tests in an iteration with edges *)

(** The edges served in an iteration before the flush test of channel [ch]:
    those before the three bounds tests, before the first flush test and
    before each flush test up to the channel's own. *)
Definition before_test (ch : Channel) (pre : nat -> list Edge) : list Edge :=
  match ch with
  | Ch1 => pre 0%nat ++ pre 1%nat ++ pre 2%nat ++ pre 3%nat
  | Ch2 => pre 0%nat ++ pre 1%nat ++ pre 2%nat ++ pre 3%nat ++ pre 4%nat
  | Ch3 => pre 0%nat ++ pre 1%nat ++ pre 2%nat ++ pre 3%nat ++ pre 4%nat
           ++ pre 5%nat
  end.

(** The time stamp the flush test of channel [ch] reads: [lastChange] as the
    edges served before the test have left it. *)
Definition lastChange_at_test (ch : Channel) (pre : nat -> list Edge)
    (s : State) : Z :=
  lastChange ch (isrs (before_test ch pre) s).

(** The outcome of the flush test of channel [ch] in an iteration started in
    [s]: the snapshot is the counter at the top, the time stamp is the one
    read at the test. *)
Definition fires (ch : Channel) (pre : nat -> list Edge) (t1 t2 t3 : Z)
    (s : State) : bool :=
  idle_test (millis_of ch t1 t2 t3) (cnt ch s) (lastChange_at_test ch pre s)
    (lastSaved ch s).

(** The booted sketch with one edge on channel 1 not yet saved, and
    iterations in which an edge arrives late: on channel 2 after the flush
    tests, or on channel 1 just before its flush test. *)
Definition edge_pending : State := isr (mkEdge Ch1 true true 10) booted.

Definition edge_after_tests : nat -> list Edge :=
  fun k => match k with 6%nat => [mkEdge Ch2 true true 5999] | _ => [] end.

Definition edge_before_test : nat -> list Edge :=
  fun k => match k with 3%nat => [mkEdge Ch1 true true 9999] | _ => [] end.

(** * Properties *)

(** ** Machine integers *)

Section MachineIntegers.

Lemma to_long_id z : is_long z -> to_long z = z.
Proof.
  unfold is_long, to_long, LONG_MIN, LONG_MAX. intros H.
  rewrite Z.mod_small; lia.
Qed.

Lemma to_long_range z : is_long (to_long z).
Proof.
  unfold is_long, to_long, LONG_MIN, LONG_MAX.
  pose proof (Z.mod_pos_bound (z + 2 ^ 31) (2 ^ 32) ltac:(lia)). lia.
Qed.

Lemma to_long_mod z : to_long (z mod 2 ^ 32) = to_long z.
Proof.
  unfold to_long.
  rewrite <- (Zplus_mod_idemp_l z (2 ^ 31) (2 ^ 32)) at 1.
  rewrite Zplus_mod_idemp_l. reflexivity.
Qed.

(** Wrapping an inner sum first changes nothing: [to_long] is a ring
    morphism modulo [2^32]. *)
Lemma to_long_add_l a b : to_long (to_long a + b) = to_long (a + b).
Proof.
  unfold to_long.
  replace ((a + 2 ^ 31) mod 2 ^ 32 - 2 ^ 31 + b + 2 ^ 31)
    with ((a + 2 ^ 31) mod 2 ^ 32 + b) by lia.
  rewrite Zplus_mod_idemp_l. f_equal. f_equal. lia.
Qed.


End MachineIntegers.

(** ** Byte strings and EEPROM cells *)

Section ByteStrings.

Lemma length_bytes_of n v : length (LE.bytes_of n v) = n.
Proof. revert v. induction n as [|k IH]; intros v; simpl; auto. Qed.

Lemma bytes_of_byte n v : Forall (fun b => 0 <= b < 256) (LE.bytes_of n v).
Proof.
  revert v. induction n as [|k IH]; intros v; simpl; constructor; auto.
  change 255 with (Z.ones 8). rewrite Z.land_ones by lia.
  apply Z.mod_pos_bound. lia.
Qed.

Lemma value_of_bytes_of n v :
  LE.value_of (LE.bytes_of n v) = v mod 2 ^ (8 * Z.of_nat n).
Proof.
  revert v. induction n as [|k IH]; intros v.
  - simpl. now rewrite Z.mod_1_r.
  - cbn [LE.bytes_of LE.value_of]. rewrite IH.
    change 255 with (Z.ones 8). rewrite Z.land_ones by lia.
    rewrite Z.mod_mod by lia. rewrite Z.shiftr_div_pow2 by lia.
    replace (8 * Z.of_nat (S k)) with (8 + 8 * Z.of_nat k) by lia.
    rewrite Z.pow_add_r by lia.
    change (2 ^ 8) with 256.
    rewrite (Z.rem_mul_r v 256 (2 ^ (8 * Z.of_nat k))) by lia.
    reflexivity.
Qed.

End ByteStrings.

Section Cells.

Lemma read_write_eq a b e : Eeprom.read (Eeprom.write a b e) a = b mod 256.
Proof.
  unfold Eeprom.read, Eeprom.write. rewrite lookup_insert_eq. apply Z.mod_mod. lia.
Qed.

Lemma read_write_ne a a' b e : a <> a' -> Eeprom.read (Eeprom.write a b e) a' = Eeprom.read e a'.
Proof. intros H. unfold Eeprom.read, Eeprom.write. now rewrite lookup_insert_ne. Qed.

Lemma read_write_block_below a bs e a' :
  (a' < a)%N -> Eeprom.read (Eeprom.write_block a bs e) a' = Eeprom.read e a'.
Proof.
  revert a e. induction bs as [|b r IH]; intros a e H; simpl; auto.
  rewrite IH by lia. apply read_write_ne. lia.
Qed.

Lemma read_block_write_block a bs e :
  Eeprom.read_block a (length bs) (Eeprom.write_block a bs e) = map (fun b => b mod 256) bs.
Proof.
  revert a e. induction bs as [|b r IH]; intros a e; simpl; auto.
  rewrite IH. f_equal.
  rewrite read_write_block_below by lia. apply read_write_eq.
Qed.

End Cells.

(** ** Round trip of the persisted record *)

Section PersistRoundTrip.

Lemma value_of_map_mod bs :
    LE.value_of (map (fun b => b mod 256) bs) = LE.value_of bs.
  Proof.
    induction bs as [|b r IH]; simpl; auto.
    rewrite IH, Z.mod_mod by lia. reflexivity.
  Qed.

Lemma long_of_bytes v :
    to_long (LE.value_of (map (fun b => b mod 256) (LE.bytes_of 4 v))) = to_long v.
  Proof.
    rewrite value_of_map_mod, value_of_bytes_of.
    change (2 ^ (8 * Z.of_nat 4)) with (2 ^ 32). apply to_long_mod.
  Qed.

Lemma uint16_of_bytes v :
    LE.value_of (map (fun b => b mod 256) (LE.bytes_of 2 v)) = to_uint16 v.
  Proof. rewrite value_of_map_mod, value_of_bytes_of. reflexivity. Qed.

  (** Reading back what [EEPROM.put] stored gives the record, each field
      converted to its C++ type. *)
Lemma EEPROM_get_put a p e :
    EEPROM_get a (EEPROM_put a p e)
    = {| p1 := to_long (p1 p); p2 := to_long (p2 p); p3 := to_long (p3 p);
         magic := to_uint16 (magic p) |}.
  Proof.
    unfold EEPROM_get, EEPROM_put.
    replace 14%nat with (length (Persist_bytes p))
      by (unfold Persist_bytes; rewrite !length_app, !length_bytes_of; reflexivity).
    rewrite read_block_write_block.
    unfold Persist_bytes, Persist_of_bytes. rewrite !map_app.
    set (f := fun b : Z => b mod 256).
    assert (L4 : forall v, length (map f (LE.bytes_of 4 v)) = 4%nat)
      by (intros; now rewrite length_map, length_bytes_of).
    assert (L2 : forall v, length (map f (LE.bytes_of 2 v)) = 2%nat)
      by (intros; now rewrite length_map, length_bytes_of).
    set (B1 := map f (LE.bytes_of 4 (p1 p))).
    set (B2 := map f (LE.bytes_of 4 (p2 p))).
    set (B3 := map f (LE.bytes_of 4 (p3 p))).
    set (B4 := map f (LE.bytes_of 2 (magic p))).
    assert (LB1 : length B1 = 4%nat) by apply L4.
    assert (LB2 : length B2 = 4%nat) by apply L4.
    assert (LB3 : length B3 = 4%nat) by apply L4.
    assert (LB4 : length B4 = 2%nat) by apply L2.
    assert (E1 : take 4 (B1 ++ B2 ++ B3 ++ B4) = B1)
      by now apply take_app_length'.
    assert (E2 : take 4 (drop 4 (B1 ++ B2 ++ B3 ++ B4)) = B2).
    { rewrite drop_app_length' by exact LB1. now apply take_app_length'. }
    assert (E3 : take 4 (drop 8 (B1 ++ B2 ++ B3 ++ B4)) = B3).
    { rewrite (app_assoc B1).
      rewrite drop_app_length' by (rewrite length_app, LB1, LB2; reflexivity).
      now apply take_app_length'. }
    assert (E4 : take 2 (drop 12 (B1 ++ B2 ++ B3 ++ B4)) = B4).
    { rewrite (app_assoc B2), (app_assoc B1).
      rewrite drop_app_length'
        by (rewrite !length_app, LB1, LB2, LB3; reflexivity).
      apply take_ge. lia. }
    rewrite E1, E2, E3, E4. unfold B1, B2, B3, B4, f.
    rewrite !long_of_bytes, uint16_of_bytes. reflexivity.
  Qed.

Lemma EEPROM_get_save o1 o2 o3 e :
    EEPROM_get 0 (saveEEPROM o1 o2 o3 e)
    = {| p1 := to_long o1; p2 := to_long o2; p3 := to_long o3; magic := MAGIC |}.
  Proof. unfold saveEEPROM. now rewrite EEPROM_get_put. Qed.

Lemma valid_store_save o1 o2 o3 e : valid_store (saveEEPROM o1 o2 o3 e) = true.
  Proof. unfold valid_store. now rewrite EEPROM_get_save. Qed.

End PersistRoundTrip.


(** ** Projections of the trace *)

Section Traces.

Lemma runs_app ch tr1 tr2 : runs ch (tr1 ++ tr2) = runs ch tr1 ++ runs ch tr2.
Proof. apply omap_app. Qed.

Lemma puts_app tr1 tr2 : puts (tr1 ++ tr2) = puts tr1 ++ puts tr2.
Proof. apply omap_app. Qed.

Lemma flushes_app ch tr1 tr2 : flushes ch (tr1 ++ tr2) = flushes ch tr1 ++ flushes ch tr2.
Proof. apply omap_app. Qed.

Lemma store_log_app tr1 tr2 : store_log (tr1 ++ tr2) = store_log tr1 ++ store_log tr2.
Proof. apply omap_app. Qed.

Lemma puts_store_log tr : puts tr = map snd (store_log tr).
Proof.
  unfold puts, store_log.
  induction tr as [|ev tr IH]; [reflexivity|].
  destruct ev; cbn; rewrite ?IH; reflexivity.
Qed.

Lemma flushes_store_log ch tr :
  flushes ch tr
  = omap (fun sp : Site * Persist =>
            if decide (sp.1 = AtFlush ch) then Some sp.2 else None) (store_log tr).
Proof.
  unfold flushes, store_log.
  induction tr as [|ev tr IH]; [reflexivity|].
  destruct ev; cbn; rewrite ?IH; try reflexivity;
    cbn; case_decide; reflexivity.
Qed.

End Traces.

(** ** The bounds test of the position controller *)

Section Bounds.

Lemma bounds_unfold ch c s :
  bounds ch c s =
  match bounds_cmd c (steps ch s) with
  | Some d => run ch d s
  | None => s
  end.
Proof.
  unfold bounds_cmd.
  destruct ch; cbn [bounds steps];
    [unfold bounds1 | unfold bounds2 | unfold bounds3];
    repeat case_match; reflexivity.
Qed.

Lemma trace_run ch d s : trace (run ch d s) = trace s ++ [Run ch d].
Proof. destruct ch; reflexivity. Qed.

Lemma motor_run ch d s : motor ch (run ch d s) = mkMotor (speed (motor ch s)) d.
Proof. destruct ch; reflexivity. Qed.

Lemma motor_run_other ch ch' d s : ch' <> ch -> motor ch' (run ch d s) = motor ch' s.
Proof. destruct ch, ch'; intros H; try reflexivity; contradiction. Qed.

Lemma trace_setSpeed ch v s :
  trace (setSpeed ch v s) = trace s ++ [SetSpeed ch (to_uint8 v)].
Proof. destruct ch; reflexivity. Qed.

Lemma motor_setSpeed ch v s :
  motor ch (setSpeed ch v s) = mkMotor (to_uint8 v) (dir (motor ch s)).
Proof. destruct ch; reflexivity. Qed.

Lemma motor_setSpeed_other ch ch' v s :
  ch' <> ch -> motor ch' (setSpeed ch v s) = motor ch' s.
Proof. destruct ch, ch'; intros H; try reflexivity; contradiction. Qed.

Lemma bounds_cmd_backward c T : T <= c -> bounds_cmd c T = Some BACKWARD.
Proof. unfold bounds_cmd. intros H. destruct (Z.geb_spec c T); [reflexivity | lia]. Qed.

Lemma bounds_cmd_forward c T : c < T -> c < 0 -> bounds_cmd c T = Some FORWARD.
Proof.
  unfold bounds_cmd. intros H1 H2.
  destruct (Z.geb_spec c T); [lia|].
  destruct (Z.ltb_spec c 0); [reflexivity | lia].
Qed.

Lemma bounds_cmd_none c T : 0 <= c < T -> bounds_cmd c T = None.
Proof.
  unfold bounds_cmd. intros H.
  destruct (Z.geb_spec c T); [lia|].
  destruct (Z.ltb_spec c 0); [lia | reflexivity].
Qed.

(** The test touches nothing but the channel's own motor and the trace. *)
Lemma bounds_frame ch c s :
  let s' := bounds ch c s in
  (forall k, cnt k s' = cnt k s) /\ (forall k, steps k s' = steps k s) /\
  (forall k, lastChange k s' = lastChange k s) /\
  (forall k, lastSaved k s' = lastSaved k s) /\
  eeprom s' = eeprom s /\
  (forall k, k <> ch -> motor k s' = motor k s) /\
  speed (motor ch s') = speed (motor ch s) /\
  store_log (trace s') = store_log (trace s).
Proof.
  cbn zeta. rewrite bounds_unfold.
  destruct (bounds_cmd c (steps ch s)) as [d|]; [|repeat split; reflexivity].
  repeat apply conj;
    first [ intros k; destruct ch, k; reflexivity
          | intros k Hk; now apply motor_run_other
          | now rewrite motor_run
          | destruct ch; reflexivity
          | idtac ].
  rewrite trace_run, store_log_app. cbn. apply app_nil_r.
Qed.

End Bounds.

(** ** Footprints *)

Section Footprints.

Lemma isr_motor_silent ed : motor_silent (isr ed).
Proof. intros s k. destruct ed as [[] a b now], k; reflexivity. Qed.

Lemma isr_store_silent ed : store_silent (isr ed).
Proof. intros s. destruct ed as [[] a b now]; reflexivity. Qed.

Lemma isrs_motor_silent eds : motor_silent (isrs eds).
Proof.
  unfold isrs. induction eds as [|ed eds IH]; intros s k; cbn [fold_left].
  - reflexivity.
  - rewrite IH. apply isr_motor_silent.
Qed.

Lemma isrs_store_silent eds : store_silent (isrs eds).
Proof.
  unfold isrs. induction eds as [|ed eds IH]; intros s; cbn [fold_left].
  - reflexivity.
  - rewrite IH. apply isr_store_silent.
Qed.

Lemma telemetry_motor_silent c1 c2 c3 : motor_silent (telemetry c1 c2 c3).
Proof.
  intros s k. unfold motor_view, telemetry. cbn [trace emit].
  rewrite runs_app. cbn. rewrite app_nil_r. destruct k; reflexivity.
Qed.

Lemma telemetry_store_silent c1 c2 c3 : store_silent (telemetry c1 c2 c3).
Proof.
  intros s. unfold store_view, telemetry. cbn [trace emit].
  rewrite store_log_app. cbn. rewrite app_nil_r. reflexivity.
Qed.

Lemma telemetry_encoder_silent c1 c2 c3 : encoder_silent (telemetry c1 c2 c3).
Proof. intros s k. destruct k; reflexivity. Qed.

Lemma bounds_store_silent ch c : store_silent (bounds ch c).
Proof.
  intros s. destruct (bounds_frame ch c s) as (_ & _ & _ & H4 & H5 & _ & _ & H8).
  pose proof (H4 Ch1) as A1. pose proof (H4 Ch2) as A2. pose proof (H4 Ch3) as A3.
  cbn [lastSaved] in A1, A2, A3.
  unfold store_view. now rewrite H5, H8, A1, A2, A3.
Qed.

Lemma bounds_encoder_silent ch c : encoder_silent (bounds ch c).
Proof.
  intros s k. destruct (bounds_frame ch c s) as (H1 & _ & H3 & _).
  unfold encoder_view. now rewrite H1, H3.
Qed.

(** The bounds test of channel [ch], seen from the motor side of [k]. *)
Lemma bounds_motor_view ch c s k :
  motor_view k (bounds ch c s) =
  if decide (k = ch) then commanded (bounds_cmd c (steps k s)) (motor_view k s)
  else motor_view k s.
Proof.
  rewrite bounds_unfold. unfold motor_view.
  destruct (decide (k = ch)) as [->|Hne].
  - destruct (bounds_cmd c (steps ch s)) as [d|]; [|reflexivity].
    cbn [commanded]. rewrite motor_run, trace_run, runs_app.
    cbn. rewrite decide_True by reflexivity.
    destruct ch; reflexivity.
  - destruct (bounds_cmd c (steps ch s)) as [d|]; [|reflexivity].
    rewrite motor_run_other, trace_run, runs_app by assumption.
    cbn. rewrite decide_False by congruence. rewrite app_nil_r.
    destruct ch, k; reflexivity.
Qed.

Lemma flush_unfold ch t c s :
  flush ch t c s =
  if idle ch t c s then
    match ch with
    | Ch1 => call_saveEEPROM (AtFlush Ch1) c (lastSaved2 s) (lastSaved3 s)
               (set_lastSaved s c (lastSaved2 s) (lastSaved3 s))
    | Ch2 => call_saveEEPROM (AtFlush Ch2) (lastSaved1 s) c (lastSaved3 s)
               (set_lastSaved s (lastSaved1 s) c (lastSaved3 s))
    | Ch3 => call_saveEEPROM (AtFlush Ch3) (lastSaved1 s) (lastSaved2 s) c
               (set_lastSaved s (lastSaved1 s) (lastSaved2 s) c)
    end
  else s.
Proof.
  destruct ch; cbn [flush idle];
    [unfold flush1 | unfold flush2 | unfold flush3]; case_match; reflexivity.
Qed.

Lemma flush_motor_silent ch t c : motor_silent (flush ch t c).
Proof.
  intros s k. rewrite flush_unfold. destruct (idle ch t c s); [|reflexivity].
  unfold motor_view.
  destruct ch; unfold call_saveEEPROM; cbn [trace emit set_eeprom set_lastSaved];
    rewrite runs_app; cbn; rewrite app_nil_r; destruct k; reflexivity.
Qed.

Lemma flush_encoder_silent ch t c : encoder_silent (flush ch t c).
Proof.
  intros s k. rewrite flush_unfold. destruct (idle ch t c s); [|reflexivity].
  destruct ch, k; reflexivity.
Qed.

End Footprints.

(** ** One iteration of the loop, seen from the motor side *)

Section LoopMotorSide.

Lemma steps_of_view k s : steps k s = (motor_view k s).1.1.
Proof. reflexivity. Qed.

(** Whatever edges are served in between, an iteration applies to each
    channel the command its bounds test selects for the snapshot taken at
    the top. *)
Lemma loop_motor_view pre t1 t2 t3 s k :
  motor_view k (loop_preempted pre t1 t2 t3 s)
  = commanded (bounds_cmd (cnt k s) (steps k s)) (motor_view k s).
Proof.
  unfold loop_preempted. cbn zeta.
  change flush1 with (flush Ch1). change flush2 with (flush Ch2).
  change flush3 with (flush Ch3).
  change bounds1 with (bounds Ch1). change bounds2 with (bounds Ch2).
  change bounds3 with (bounds Ch3).
  rewrite telemetry_motor_silent, isrs_motor_silent.
  rewrite flush_motor_silent, isrs_motor_silent.
  rewrite flush_motor_silent, isrs_motor_silent.
  rewrite flush_motor_silent, isrs_motor_silent.
  repeat (rewrite ?bounds_motor_view, ?isrs_motor_silent; rewrite ?steps_of_view).
  destruct k; repeat case_decide; try congruence; reflexivity.
Qed.

Lemma loop_is_unpreempted t1 t2 t3 s :
  loop t1 t2 t3 s = loop_preempted (fun _ => []) t1 t2 t3 s.
Proof. unfold loop, loop_preempted, isrs. cbn [fold_left]. reflexivity. Qed.

End LoopMotorSide.

(** ** Claims about the position controller *)

Section PositionController.

Lemma commanded_backward c T v :
  c >= T -> commanded (bounds_cmd c T) v = (v.1.1, mkMotor (speed v.1.2) BACKWARD, v.2 ++ [BACKWARD]).
Proof. intros H. rewrite bounds_cmd_backward by lia. now destruct v as [[T' m] rs]. Qed.

Lemma commanded_forward c T v :
  c < T -> c < 0 -> commanded (bounds_cmd c T) v = (v.1.1, mkMotor (speed v.1.2) FORWARD, v.2 ++ [FORWARD]).
Proof. intros H1 H2. rewrite bounds_cmd_forward by lia. now destruct v as [[T' m] rs]. Qed.

Lemma commanded_none c T v : 0 <= c < T -> commanded (bounds_cmd c T) v = v.
Proof. intros H. now rewrite bounds_cmd_none by lia. Qed.

Lemma motor_view_inv k s T m rs :
  motor_view k s = (T, m, rs) ->
  steps k s = T /\ motor k s = m /\ runs k (trace s) = rs.
Proof. unfold motor_view. intros H. inversion H. auto. Qed.

Ltac read_view V :=
  apply motor_view_inv in V; cbn [fst snd] in V;
  let V1 := fresh "V" in let V2 := fresh "V" in let V3 := fresh "V" in
  destruct V as (V1 & V2 & V3); rewrite ?V2, ?V3.

(** C1 (bounds oscillation).  In every iteration of the loop, whatever edges
    are served meanwhile, and for every channel, with target [T] and snapshot
    count [c]: the controller sends the channel's motor exactly one run
    command, [BACKWARD], when [c >= T]; exactly one, [FORWARD], when [c < 0]
    (the upper bound is tested first, so this is the case [c < T]; with a
    target [T >= 0], as the data model requires, [c < 0] alone decides it);
    and otherwise it sends no run command and the motor stays as it was.
    The direction can only change when one of the two bounds is crossed. *)
Theorem bounds_oscillation (ch : Channel) (pre : nat -> list Edge)
    (t1 t2 t3 : Z) (s : State) :
  let c := cnt ch s in
  let T := steps ch s in
  let s' := loop_preempted pre t1 t2 t3 s in
  (c >= T ->
     runs ch (trace s') = runs ch (trace s) ++ [BACKWARD]
     /\ dir (motor ch s') = BACKWARD) /\
  (c < 0 -> c < T ->
     runs ch (trace s') = runs ch (trace s) ++ [FORWARD]
     /\ dir (motor ch s') = FORWARD) /\
  (0 <= T -> c < 0 ->
     runs ch (trace s') = runs ch (trace s) ++ [FORWARD]
     /\ dir (motor ch s') = FORWARD) /\
  (~ c >= T -> ~ c < 0 ->
     runs ch (trace s') = runs ch (trace s) /\ motor ch s' = motor ch s) /\
  (dir (motor ch s') <> dir (motor ch s) -> c >= T \/ c < 0).
Proof.
  cbn zeta.
  pose proof (loop_motor_view pre t1 t2 t3 s ch) as V.
  assert (Fwd : cnt ch s < 0 -> cnt ch s < steps ch s ->
            runs ch (trace (loop_preempted pre t1 t2 t3 s))
              = runs ch (trace s) ++ [FORWARD] /\
            dir (motor ch (loop_preempted pre t1 t2 t3 s)) = FORWARD).
  { intros H0 HT. rewrite commanded_forward in V by lia.
    read_view V. auto. }
  split; [|split; [|split; [|split]]].
  - intros H. rewrite commanded_backward in V by lia.
    read_view V. auto.
  - exact Fwd.
  - intros HT H0. apply Fwd; lia.
  - intros H1 H2. rewrite commanded_none in V by lia.
    unfold motor_view in V. inversion V as [[V1 V2 V3]]. rewrite V2, V3. auto.
  - intros Hd.
    destruct (Z_lt_le_dec (cnt ch s) (steps ch s)) as [Hlt|Hge]; [|left; lia].
    destruct (Z_lt_le_dec (cnt ch s) 0) as [Hneg|Hpos]; [right; lia|].
    rewrite commanded_none in V by lia.
    unfold motor_view in V. inversion V as [[V1 V2 V3]].
    rewrite V2 in Hd. contradiction.
Qed.

(** [bounds_oscillation] at a concrete state: targets 596, 835, 835 and
    snapshots 596 (upper bound reached), -1 (below zero) and 300 (between). *)
Lemma bounds_oscillation_witness :
  let s := sample 596 835 835 596 (-1) 300 in
  let s' := loop_preempted quiet 0 0 0 s in
  (runs Ch1 (trace s') = runs Ch1 (trace s) ++ [BACKWARD]
     /\ dir (motor Ch1 s') = BACKWARD) /\
  (runs Ch2 (trace s') = runs Ch2 (trace s) ++ [FORWARD]
     /\ dir (motor Ch2 s') = FORWARD) /\
  (runs Ch3 (trace s') = runs Ch3 (trace s) /\ motor Ch3 s' = motor Ch3 s).
Proof.
  cbn zeta.
  pose (s := sample 596 835 835 596 (-1) 300).
  split; [|split].
  - refine (proj1 (bounds_oscillation Ch1 quiet 0 0 0 s) _). cbn. lia.
  - refine (proj1 (proj2 (proj2 (bounds_oscillation Ch2 quiet 0 0 0 s))) _ _);
      cbn; lia.
  - refine (proj1 (proj2 (proj2 (proj2 (bounds_oscillation Ch3 quiet 0 0 0 s)))) _ _);
      cbn; lia.
Defined.

(** C7 as stated fails: with target 0 and snapshot -1 the controller
    commands [FORWARD], not [BACKWARD]. *)
Lemma degenerate_target_counterexample :
  let s := sample 0 0 0 (-1) 0 0 in
  steps Ch1 s <= 0 /\
  runs Ch1 (trace (loop 0 0 0 s)) = [FORWARD] /\
  runs Ch1 (trace (loop 0 0 0 s)) <> [BACKWARD] /\
  dir (motor Ch1 (loop 0 0 0 s)) = FORWARD.
Proof.
  cbn zeta.
  assert (E : runs Ch1 (trace (loop 0 0 0 (sample 0 0 0 (-1) 0 0))) = [FORWARD])
    by (vm_compute; reflexivity).
  split; [cbn; lia|]. split; [exact E|]. split; [rewrite E; discriminate|].
  vm_compute. reflexivity.
Qed.

(** C7 (amended).  For every channel whose target [T] is 0 or negative the
    controller sends the channel's motor exactly one run command in every
    iteration, whatever the count: [BACKWARD] when the snapshot [c >= T] (in
    particular for every [c >= 0]), and [FORWARD] when [c < T]. *)
Theorem degenerate_target (ch : Channel) (pre : nat -> list Edge)
    (t1 t2 t3 : Z) (s : State) :
  steps ch s <= 0 ->
  let c := cnt ch s in
  let s' := loop_preempted pre t1 t2 t3 s in
  (c >= steps ch s ->
     runs ch (trace s') = runs ch (trace s) ++ [BACKWARD]
     /\ dir (motor ch s') = BACKWARD) /\
  (c < steps ch s ->
     runs ch (trace s') = runs ch (trace s) ++ [FORWARD]
     /\ dir (motor ch s') = FORWARD) /\
  (exists d, runs ch (trace s') = runs ch (trace s) ++ [d]).
Proof.
  intros HT. cbn zeta.
  pose proof (loop_motor_view pre t1 t2 t3 s ch) as V.
  assert (B : cnt ch s >= steps ch s ->
            runs ch (trace (loop_preempted pre t1 t2 t3 s))
              = runs ch (trace s) ++ [BACKWARD] /\
            dir (motor ch (loop_preempted pre t1 t2 t3 s)) = BACKWARD).
  { intros H. rewrite commanded_backward in V by lia.
    read_view V. auto. }
  assert (F : cnt ch s < steps ch s ->
            runs ch (trace (loop_preempted pre t1 t2 t3 s))
              = runs ch (trace s) ++ [FORWARD] /\
            dir (motor ch (loop_preempted pre t1 t2 t3 s)) = FORWARD).
  { intros H. rewrite commanded_forward in V by lia.
    read_view V. auto. }
  split; [exact B | split; [exact F|]].
  destruct (Z_lt_le_dec (cnt ch s) (steps ch s)) as [Hlt|Hge].
  - exists FORWARD. apply F. lia.
  - exists BACKWARD. apply B. lia.
Qed.

Lemma degenerate_target_witness :
  let s := sample 0 (-2) 0 0 (-3) 5 in
  let s' := loop_preempted quiet 0 0 0 s in
  (runs Ch3 (trace s') = runs Ch3 (trace s) ++ [BACKWARD]
     /\ dir (motor Ch3 s') = BACKWARD) /\
  (runs Ch2 (trace s') = runs Ch2 (trace s) ++ [FORWARD]
     /\ dir (motor Ch2 s') = FORWARD).
Proof.
  cbn zeta.
  pose (s := sample 0 (-2) 0 0 (-3) 5).
  assert (H3 : steps Ch3 s <= 0) by (cbn; lia).
  assert (H2 : steps Ch2 s <= 0) by (cbn; lia).
  split.
  - refine (proj1 (degenerate_target Ch3 quiet 0 0 0 s H3) _). cbn. lia.
  - refine (proj1 (proj2 (degenerate_target Ch2 quiet 0 0 0 s H2)) _). cbn. lia.
Defined.

End PositionController.

(** ** Claims about the quadrature decoder *)

Section Decoder.

Lemma isrs_cons ed eds s : isrs (ed :: eds) s = isrs eds (isr ed s).
Proof. reflexivity. Qed.

Lemma isrs_snoc eds ed s : isrs (eds ++ [ed]) s = isr ed (isrs eds s).
Proof. unfold isrs. now rewrite fold_left_app. Qed.

Lemma signed_sum_snoc ch eds ed :
  signed_sum ch (eds ++ [ed])
  = signed_sum ch eds + (if decide (e_ch ed = ch) then contribution ed else 0).
Proof.
  induction eds as [|x r IH]; cbn [app signed_sum].
  - case_decide; lia.
  - rewrite IH. repeat case_decide; lia.
Qed.

(** One edge, seen from any channel. *)
Lemma isr_cnt ed s k :
  cnt k (isr ed s)
  = if decide (e_ch ed = k) then to_long (cnt k s + contribution ed) else cnt k s.
Proof.
  destruct ed as [c a b now]. unfold isr, contribution. cbn [e_ch e_a e_b e_now].
  destruct c, k; cbn [decide]; try reflexivity;
    rewrite decide_True by reflexivity;
    [unfold isrEnc1 | unfold isrEnc2 | unfold isrEnc3];
    destruct (Bool.eqb a b); reflexivity.
Qed.

Lemma isr_lastChange ed s k :
  lastChange k (isr ed s)
  = if decide (e_ch ed = k) then e_now ed else lastChange k s.
Proof.
  destruct ed as [c a b now]. unfold isr. cbn [e_ch e_a e_b e_now].
  destruct c, k; reflexivity.
Qed.

(** Modulo [2^32] the counter is the initial value plus the signed sum. *)
Lemma isrs_cnt_mod ch eds s :
  to_long (cnt ch (isrs eds s)) = to_long (cnt ch s + signed_sum ch eds).
Proof.
  revert s. induction eds as [|ed r IH]; intros s.
  - cbn [signed_sum]. now rewrite Z.add_0_r.
  - rewrite isrs_cons, IH, isr_cnt. cbn [signed_sum].
    case_decide; [|reflexivity].
    rewrite to_long_add_l. f_equal. lia.
Qed.

(** Either no edge of the channel was served, or the counter went through
    a conversion to [long]. *)
Lemma isrs_cnt_cases ch eds s :
  (cnt ch (isrs eds s) = cnt ch s /\ signed_sum ch eds = 0)
  \/ is_long (cnt ch (isrs eds s)).
Proof.
  induction eds as [|ed r IH] using rev_ind.
  - left. split; reflexivity.
  - rewrite isrs_snoc, isr_cnt, signed_sum_snoc.
    case_decide.
    + right. apply to_long_range.
    + destruct IH as [[E1 E2]|L]; [left; split; lia | right; exact L].
Qed.

Lemma isrs_cnt ch eds s :
  is_long (cnt ch s + signed_sum ch eds) ->
  cnt ch (isrs eds s) = cnt ch s + signed_sum ch eds.
Proof.
  intros H.
  destruct (isrs_cnt_cases ch eds s) as [[E1 E2]|L]; [lia|].
  rewrite <- (to_long_id _ L), isrs_cnt_mod. now apply to_long_id.
Qed.

(** C2 (quadrature sign law).  On every edge of a channel's A line the
    handler adds exactly 1 to that channel's counter when the two levels
    read are equal and subtracts exactly 1 when they differ (as long as the
    result is a value of type [long]), stores the current time in that
    channel's [lastChange], and leaves the other channels' counters and time
    stamps alone.  Hence after any sequence of edges the counter is its
    initial value plus the signed sum of the contributions. *)
Theorem quadrature_sign_law (ch : Channel) (s : State) :
  (forall a b now,
     let s' := isr (mkEdge ch a b now) s in
     lastChange ch s' = now /\
     (a = b -> is_long (cnt ch s + 1) -> cnt ch s' = cnt ch s + 1) /\
     (a <> b -> is_long (cnt ch s - 1) -> cnt ch s' = cnt ch s - 1) /\
     (forall k, k <> ch ->
        cnt k s' = cnt k s /\ lastChange k s' = lastChange k s)) /\
  (forall eds,
     is_long (cnt ch s + signed_sum ch eds) ->
     cnt ch (isrs eds s) = cnt ch s + signed_sum ch eds).
Proof.
  split; [|intros eds; apply isrs_cnt].
  intros a b now. cbn zeta.
  split; [|split; [|split]].
  - rewrite isr_lastChange. cbn [e_ch e_now]. now rewrite decide_True.
  - intros -> L. rewrite isr_cnt. cbn [e_ch]. rewrite decide_True by reflexivity.
    unfold contribution. cbn [e_a e_b]. rewrite Bool.eqb_reflx.
    now apply to_long_id.
  - intros Hab L. rewrite isr_cnt. cbn [e_ch]. rewrite decide_True by reflexivity.
    unfold contribution. cbn [e_a e_b].
    destruct (Bool.eqb a b) eqn:E; [apply Bool.eqb_prop in E; contradiction|].
    replace (cnt ch s + -1) with (cnt ch s - 1) by lia. now apply to_long_id.
  - intros k Hk. rewrite isr_cnt, isr_lastChange. cbn [e_ch].
    now rewrite !decide_False by congruence.
Qed.

(** [quadrature_sign_law] at count 5 of channel 1: an agreeing edge, a
    disagreeing edge, and a burst of four edges on channels 1 and 2. *)
Lemma quadrature_sign_law_witness :
  let s := sample 596 835 835 5 0 0 in
  let burst := [mkEdge Ch1 true true 10; mkEdge Ch2 true false 11;
                mkEdge Ch1 false false 12; mkEdge Ch1 false true 13] in
  cnt Ch1 (isr (mkEdge Ch1 true true 42) s) = cnt Ch1 s + 1 /\
  cnt Ch1 (isr (mkEdge Ch1 true false 42) s) = cnt Ch1 s - 1 /\
  cnt Ch1 (isrs burst s) = cnt Ch1 s + signed_sum Ch1 burst.
Proof.
  cbn zeta.
  pose (s := sample 596 835 835 5 0 0).
  destruct (quadrature_sign_law Ch1 s) as [One Many].
  split; [|split].
  - refine (proj1 (proj2 (One true true 42)) _ _);
      [reflexivity | vm_compute; split; discriminate].
  - refine (proj1 (proj2 (proj2 (One true false 42))) _ _);
      [discriminate | vm_compute; split; discriminate].
  - refine (Many _ _). vm_compute; split; discriminate.
Defined.

End Decoder.

(** ** The encoder side under a sequence of edges *)

Section EncoderSide.

Lemma isr_encoder_view ed s k :
  encoder_view k (isr ed s)
  = if decide (e_ch ed = k)
    then (to_long ((encoder_view k s).1 + contribution ed), e_now ed)
    else encoder_view k s.
Proof.
  unfold encoder_view. rewrite isr_cnt, isr_lastChange. cbn [fst].
  case_decide; reflexivity.
Qed.

Lemma isrs_encoder_ext eds s1 s2 :
  (forall k, encoder_view k s1 = encoder_view k s2) ->
  forall k, encoder_view k (isrs eds s1) = encoder_view k (isrs eds s2).
Proof.
  revert s1 s2. induction eds as [|ed r IH]; intros s1 s2 H k; [apply H|].
  rewrite !isrs_cons. apply IH. intros j.
  rewrite !isr_encoder_view, H. reflexivity.
Qed.

Lemma isrs_app l1 l2 s : isrs (l1 ++ l2) s = isrs l2 (isrs l1 s).
Proof. unfold isrs. apply fold_left_app. Qed.

Lemma isrs_encoder_ext1 k eds s1 s2 :
  encoder_view k s1 = encoder_view k s2 ->
  encoder_view k (isrs eds s1) = encoder_view k (isrs eds s2).
Proof.
  revert s1 s2. induction eds as [|ed r IH]; intros s1 s2 H; [exact H|].
  rewrite !isrs_cons. apply IH. rewrite !isr_encoder_view, H. reflexivity.
Qed.


Lemma isrs_other_channel eds s k :
  Forall (fun ed => e_ch ed <> k) eds ->
  encoder_view k (isrs eds s) = encoder_view k s.
Proof.
  revert s. induction eds as [|ed r IH]; intros s H; [reflexivity|].
  inversion H as [|? ? Hd Hr]; subst.
  rewrite isrs_cons, IH by exact Hr.
  rewrite isr_encoder_view. now rewrite decide_False.
Qed.

(** The statements of an iteration never write the encoder side. *)
Lemma no_edge_lost_view pre t1 t2 t3 s k :
  encoder_view k (loop_preempted pre t1 t2 t3 s)
  = encoder_view k (isrs (served pre) s).
Proof.
  unfold served. rewrite !isrs_app.
  unfold loop_preempted. cbn zeta.
  change flush1 with (flush Ch1). change flush2 with (flush Ch2).
  change flush3 with (flush Ch3).
  change bounds1 with (bounds Ch1). change bounds2 with (bounds Ch2).
  change bounds3 with (bounds Ch3).
  rewrite telemetry_encoder_silent. revert k.
  apply isrs_encoder_ext. intros k6. rewrite flush_encoder_silent. revert k6.
  apply isrs_encoder_ext. intros k5. rewrite flush_encoder_silent. revert k5.
  apply isrs_encoder_ext. intros k4. rewrite flush_encoder_silent. revert k4.
  apply isrs_encoder_ext. intros k3. rewrite bounds_encoder_silent. revert k3.
  apply isrs_encoder_ext. intros k2. rewrite bounds_encoder_silent. revert k2.
  apply isrs_encoder_ext. intros k1. rewrite bounds_encoder_silent.
  reflexivity.
Qed.

End EncoderSide.

(** ** One iteration of the loop, seen from the storage side *)

Section LoopStoreSide.

Lemma idle_unfold ch t c s :
  idle ch t c s = idle_test t c (lastChange ch s) (lastSaved ch s).
Proof. destruct ch; reflexivity. Qed.

Lemma idle_test_true t c changed saved :
  idle_test t c changed saved = true <->
  to_ulong (t - changed) > T_IDLE /\ c <> saved.
Proof.
  unfold idle_test. rewrite andb_true_iff, negb_true_iff, Z.ltb_lt, Z.eqb_neq. lia.
Qed.

Lemma idle_test_false t c changed saved :
  idle_test t c changed saved = false <->
  to_ulong (t - changed) <= T_IDLE \/ c = saved.
Proof.
  unfold idle_test. rewrite andb_false_iff, negb_false_iff, Z.ltb_ge, Z.eqb_eq. lia.
Qed.

Lemma lastSaved_of_view k s :
  lastSaved k s
  = match k, (store_view s).2 with
    | Ch1, (a, _, _) => a | Ch2, (_, b, _) => b | Ch3, (_, _, d) => d
    end.
Proof. destruct k; reflexivity. Qed.

Lemma lastChange_of_view k s : lastChange k s = (encoder_view k s).2.
Proof. reflexivity. Qed.

Lemma cnt_of_view k s : cnt k s = (encoder_view k s).1.
Proof. reflexivity. Qed.

(** A flush test, seen from the storage side. *)
Lemma flush_store_view ch t c s :
  store_view (flush ch t c s) = flushed (idle ch t c s) ch c (store_view s).
Proof.
  rewrite flush_unfold. destruct (idle ch t c s); [|reflexivity].
  unfold store_view, flushed.
  destruct ch; unfold call_saveEEPROM, with_saved, record_of;
    cbn [trace emit set_eeprom set_lastSaved eeprom lastSaved1 lastSaved2 lastSaved3];
    rewrite store_log_app; reflexivity.
Qed.

Lemma flush_lastSaved ch t c s k :
  lastSaved k (flush ch t c s)
  = if decide (k = ch) then (if idle ch t c s then c else lastSaved k s)
    else lastSaved k s.
Proof.
  rewrite flush_unfold.
  destruct (idle ch t c s); destruct ch, k; reflexivity.
Qed.

(** The three flush tests of an iteration all decide on the state the
    iteration started from: none of them reads what an earlier one wrote. *)
Lemma loop_store_view t1 t2 t3 s :
  store_view (loop t1 t2 t3 s)
  = flushed (idle Ch3 t3 (cnt3 s) s) Ch3 (cnt3 s)
      (flushed (idle Ch2 t2 (cnt2 s) s) Ch2 (cnt2 s)
         (flushed (idle Ch1 t1 (cnt1 s) s) Ch1 (cnt1 s) (store_view s))).
Proof.
  unfold loop. cbn zeta.
  change flush1 with (flush Ch1). change flush2 with (flush Ch2).
  change flush3 with (flush Ch3).
  change bounds1 with (bounds Ch1). change bounds2 with (bounds Ch2).
  change bounds3 with (bounds Ch3).
  rewrite telemetry_store_silent, !flush_store_view, !bounds_store_silent.
  rewrite !idle_unfold.
  rewrite !flush_lastSaved.
  rewrite !decide_False by congruence.
  rewrite !lastChange_of_view, !flush_encoder_silent, !bounds_encoder_silent.
  rewrite !lastSaved_of_view, !bounds_store_silent.
  reflexivity.
Qed.

Lemma isrs_lastSaved eds s k : lastSaved k (isrs eds s) = lastSaved k s.
Proof.
  rewrite (lastSaved_of_view k (isrs eds s)), isrs_store_silent.
  symmetry. apply lastSaved_of_view.
Qed.

Lemma lastChange_of_encoder_view k s1 s2 :
  encoder_view k s1 = encoder_view k s2 -> lastChange k s1 = lastChange k s2.
Proof. intros H. exact (f_equal snd H). Qed.

(** With edges served between the statements, each flush test decides on
    the snapshot taken at the top, on its channel's last saved value, which
    no earlier statement of the iteration has changed, and on the time stamp
    as the edges served before the test have left it. *)
Lemma loop_preempted_store_view pre t1 t2 t3 s :
  store_view (loop_preempted pre t1 t2 t3 s)
  = flushed (fires Ch3 pre t1 t2 t3 s) Ch3 (cnt3 s)
      (flushed (fires Ch2 pre t1 t2 t3 s) Ch2 (cnt2 s)
         (flushed (fires Ch1 pre t1 t2 t3 s) Ch1 (cnt1 s) (store_view s))).
Proof.
  unfold loop_preempted. cbn zeta.
  change flush1 with (flush Ch1). change flush2 with (flush Ch2).
  change flush3 with (flush Ch3).
  change bounds1 with (bounds Ch1). change bounds2 with (bounds Ch2).
  change bounds3 with (bounds Ch3).
  set (S3 := isrs (pre 3%nat)
               (bounds Ch3 (cnt3 s)
                  (isrs (pre 2%nat)
                     (bounds Ch2 (cnt2 s)
                        (isrs (pre 1%nat)
                           (bounds Ch1 (cnt1 s) (isrs (pre 0%nat) s))))))).
  set (S4 := isrs (pre 4%nat) (flush Ch1 t1 (cnt1 s) S3)).
  set (S5 := isrs (pre 5%nat) (flush Ch2 t2 (cnt2 s) S4)).
  assert (E3 : forall k, encoder_view k S3
                 = encoder_view k (isrs (before_test Ch1 pre) s)).
  { intros k. unfold S3, before_test. rewrite !isrs_app.
    revert k.
    apply isrs_encoder_ext. intros k3. rewrite bounds_encoder_silent. revert k3.
    apply isrs_encoder_ext. intros k2. rewrite bounds_encoder_silent. revert k2.
    apply isrs_encoder_ext. intros k1. rewrite bounds_encoder_silent.
    reflexivity. }
  assert (E4 : forall k, encoder_view k S4
                 = encoder_view k (isrs (before_test Ch2 pre) s)).
  { unfold S4, before_test.
    rewrite !app_assoc, isrs_app, <- !app_assoc.
    apply isrs_encoder_ext. intros k. rewrite flush_encoder_silent. apply E3. }
  assert (E5 : forall k, encoder_view k S5
                 = encoder_view k (isrs (before_test Ch3 pre) s)).
  { unfold S5. unfold before_test at 1.
    rewrite !app_assoc, isrs_app, <- !app_assoc.
    apply isrs_encoder_ext. intros k. rewrite flush_encoder_silent. apply E4. }
  assert (V3 : store_view S3 = store_view s).
  { unfold S3. rewrite isrs_store_silent, bounds_store_silent.
    rewrite isrs_store_silent, bounds_store_silent.
    rewrite isrs_store_silent, bounds_store_silent.
    apply isrs_store_silent. }
  assert (I1 : idle Ch1 t1 (cnt1 s) S3 = fires Ch1 pre t1 t2 t3 s).
  { rewrite idle_unfold. unfold fires, lastChange_at_test. cbn [millis_of cnt].
    rewrite (lastChange_of_encoder_view _ _ _ (E3 Ch1)).
    now rewrite (lastSaved_of_view Ch1 S3), V3. }
  assert (I2 : idle Ch2 t2 (cnt2 s) S4 = fires Ch2 pre t1 t2 t3 s).
  { rewrite idle_unfold. unfold fires, lastChange_at_test. cbn [millis_of cnt].
    rewrite (lastChange_of_encoder_view _ _ _ (E4 Ch2)).
    unfold S4. rewrite isrs_lastSaved, flush_lastSaved.
    rewrite decide_False by congruence.
    now rewrite (lastSaved_of_view Ch2 S3), V3. }
  assert (I3 : idle Ch3 t3 (cnt3 s) S5 = fires Ch3 pre t1 t2 t3 s).
  { rewrite idle_unfold. unfold fires, lastChange_at_test. cbn [millis_of cnt].
    rewrite (lastChange_of_encoder_view _ _ _ (E5 Ch3)).
    unfold S5. rewrite isrs_lastSaved, flush_lastSaved.
    rewrite decide_False by congruence.
    unfold S4. rewrite isrs_lastSaved, flush_lastSaved.
    rewrite decide_False by congruence.
    now rewrite (lastSaved_of_view Ch3 S3), V3. }
  rewrite telemetry_store_silent, isrs_store_silent.
  rewrite flush_store_view, I3. unfold S5 at 1.
  rewrite isrs_store_silent, flush_store_view, I2. unfold S4 at 1.
  rewrite isrs_store_silent, flush_store_view, I1, V3.
  reflexivity.
Qed.

End LoopStoreSide.


(** ** Claims about the flush tests *)

Section Persistence.

(** What an iteration does to the storage side, spelled out per channel. *)
Lemma loop_store_facts t1 t2 t3 s ch :
  let s' := loop t1 t2 t3 s in
  let fire k := idle k (millis_of k t1 t2 t3) (cnt k s) s in
  (forall k, lastSaved k s' = if fire k then cnt k s else lastSaved k s) /\
  flushes ch (trace s') = flushes ch (trace s) ++
    (if fire ch then
       [ {| p1 := if decide (ch = Ch1) then cnt1 s
                  else if earlier Ch1 ch then lastSaved1 s' else lastSaved1 s;
            p2 := if decide (ch = Ch2) then cnt2 s
                  else if earlier Ch2 ch then lastSaved2 s' else lastSaved2 s;
            p3 := if decide (ch = Ch3) then cnt3 s
                  else if earlier Ch3 ch then lastSaved3 s' else lastSaved3 s;
            magic := MAGIC |} ]
     else []) /\
  length (puts (trace s')) = (length (puts (trace s))
    + (if fire Ch1 then 1 else 0) + (if fire Ch2 then 1 else 0)
    + (if fire Ch3 then 1 else 0))%nat /\
  (fire Ch1 || fire Ch2 || fire Ch3 = true ->
     EEPROM_get 0 (eeprom s')
     = {| p1 := to_long (lastSaved1 s'); p2 := to_long (lastSaved2 s');
          p3 := to_long (lastSaved3 s'); magic := MAGIC |}) /\
  (fire Ch1 || fire Ch2 || fire Ch3 = false -> eeprom s' = eeprom s).
Proof.
  cbn zeta.
  pose proof (loop_store_view t1 t2 t3 s) as V.
  rewrite !flushes_store_log, !puts_store_log, !length_map.
  unfold store_view in V.
  generalize dependent (loop t1 t2 t3 s). intros s' V.
  assert (K : forall k, lastSaved k s'
              = if idle k (millis_of k t1 t2 t3) (cnt k s) s then cnt k s
                else lastSaved k s).
  { intros k.
    destruct k; cbn [millis_of cnt lastSaved];
      destruct (idle Ch1 t1 (cnt1 s) s), (idle Ch2 t2 (cnt2 s) s),
        (idle Ch3 t3 (cnt3 s) s);
      cbn [flushed with_saved record_of] in V;
      injection V as V1 V2 V3 V4 V5; congruence. }
  split; [exact K|].
  cbn [millis_of cnt].
  split; [|split; [|split]].
  - destruct ch; cbn [millis_of cnt];
      destruct (idle Ch1 t1 (cnt1 s) s), (idle Ch2 t2 (cnt2 s) s),
        (idle Ch3 t3 (cnt3 s) s);
      cbn [flushed with_saved record_of] in V;
      injection V as V1 V2 V3 V4 V5; rewrite V2, ?V3, ?V4, ?V5;
      rewrite ?omap_app; cbn [omap fst snd earlier];
      repeat case_decide; try congruence; cbn [mbind option_bind];
      rewrite ?app_nil_r; reflexivity.
  - destruct (idle Ch1 t1 (cnt1 s) s), (idle Ch2 t2 (cnt2 s) s),
      (idle Ch3 t3 (cnt3 s) s);
      cbn [flushed with_saved record_of] in V;
      injection V as V1 V2 V3 V4 V5; rewrite V2;
      rewrite ?length_app; cbn [length]; lia.
  - destruct (idle Ch1 t1 (cnt1 s) s), (idle Ch2 t2 (cnt2 s) s),
      (idle Ch3 t3 (cnt3 s) s);
      cbn [flushed with_saved record_of] in V;
      injection V as V1 V2 V3 V4 V5; intros Hf;
      first [discriminate Hf | rewrite V1, V3, V4, V5; apply EEPROM_get_save].
  - destruct (idle Ch1 t1 (cnt1 s) s), (idle Ch2 t2 (cnt2 s) s),
      (idle Ch3 t3 (cnt3 s) s);
      cbn [flushed with_saved record_of] in V;
      injection V as V1 V2 V3 V4 V5; intros Hf;
      first [discriminate Hf | exact V1].
Qed.

(** The same facts for any three outcomes of the flush tests. *)
Lemma flushed_facts s s' f1 f2 f3 ch :
  store_view s'
  = flushed f3 Ch3 (cnt3 s)
      (flushed f2 Ch2 (cnt2 s) (flushed f1 Ch1 (cnt1 s) (store_view s))) ->
  let fire k := match k with Ch1 => f1 | Ch2 => f2 | Ch3 => f3 end in
  (forall k, lastSaved k s' = if fire k then cnt k s else lastSaved k s) /\
  flushes ch (trace s') = flushes ch (trace s) ++
    (if fire ch then
       [ {| p1 := if decide (ch = Ch1) then cnt1 s
                  else if earlier Ch1 ch then lastSaved1 s' else lastSaved1 s;
            p2 := if decide (ch = Ch2) then cnt2 s
                  else if earlier Ch2 ch then lastSaved2 s' else lastSaved2 s;
            p3 := if decide (ch = Ch3) then cnt3 s
                  else if earlier Ch3 ch then lastSaved3 s' else lastSaved3 s;
            magic := MAGIC |} ]
     else []) /\
  (f1 || f2 || f3 = true ->
     EEPROM_get 0 (eeprom s')
     = {| p1 := to_long (lastSaved1 s'); p2 := to_long (lastSaved2 s');
          p3 := to_long (lastSaved3 s'); magic := MAGIC |}) /\
  (f1 || f2 || f3 = false -> eeprom s' = eeprom s).
Proof.
  intros V. cbn zeta.
  rewrite !flushes_store_log.
  unfold store_view in V.
  assert (K : forall k, lastSaved k s'
              = if match k with Ch1 => f1 | Ch2 => f2 | Ch3 => f3 end
                then cnt k s else lastSaved k s).
  { intros k.
    destruct k; cbn [cnt lastSaved]; destruct f1, f2, f3;
      cbn [flushed with_saved record_of] in V;
      injection V as V1 V2 V3 V4 V5; congruence. }
  split; [exact K|].
  split; [|split].
  - destruct ch; destruct f1, f2, f3;
      cbn [flushed with_saved record_of] in V;
      injection V as V1 V2 V3 V4 V5; rewrite V2, ?V3, ?V4, ?V5;
      rewrite ?omap_app; cbn [omap fst snd earlier];
      repeat case_decide; try congruence; cbn [mbind option_bind];
      rewrite ?app_nil_r; reflexivity.
  - destruct f1, f2, f3;
      cbn [flushed with_saved record_of] in V;
      injection V as V1 V2 V3 V4 V5; intros Hf;
      first [discriminate Hf | rewrite V1, V3, V4, V5; apply EEPROM_get_save].
  - destruct f1, f2, f3;
      cbn [flushed with_saved record_of] in V;
      injection V as V1 V2 V3 V4 V5; intros Hf;
      first [discriminate Hf | exact V1].
Qed.

(** What an iteration with edges does to the storage side, per channel. *)
Lemma loop_preempted_store_facts pre t1 t2 t3 s ch :
  let s' := loop_preempted pre t1 t2 t3 s in
  let fire k := fires k pre t1 t2 t3 s in
  (forall k, lastSaved k s' = if fire k then cnt k s else lastSaved k s) /\
  flushes ch (trace s') = flushes ch (trace s) ++
    (if fire ch then
       [ {| p1 := if decide (ch = Ch1) then cnt1 s
                  else if earlier Ch1 ch then lastSaved1 s' else lastSaved1 s;
            p2 := if decide (ch = Ch2) then cnt2 s
                  else if earlier Ch2 ch then lastSaved2 s' else lastSaved2 s;
            p3 := if decide (ch = Ch3) then cnt3 s
                  else if earlier Ch3 ch then lastSaved3 s' else lastSaved3 s;
            magic := MAGIC |} ]
     else []) /\
  (fire Ch1 || fire Ch2 || fire Ch3 = true ->
     EEPROM_get 0 (eeprom s')
     = {| p1 := to_long (lastSaved1 s'); p2 := to_long (lastSaved2 s');
          p3 := to_long (lastSaved3 s'); magic := MAGIC |}) /\
  (fire Ch1 || fire Ch2 || fire Ch3 = false -> eeprom s' = eeprom s).
Proof.
  cbn zeta.
  destruct (flushed_facts s _ _ _ _ ch (loop_preempted_store_view pre t1 t2 t3 s))
    as (K & F & E & U).
  cbn zeta in K, F.
  split; [|split; [|split; [exact E | exact U]]].
  - intros k. rewrite K. destruct k; reflexivity.
  - rewrite F. destruct ch; reflexivity.
Qed.

Lemma fires_true ch pre t1 t2 t3 s :
  to_ulong (millis_of ch t1 t2 t3 - lastChange_at_test ch pre s) > T_IDLE ->
  cnt ch s <> lastSaved ch s ->
  fires ch pre t1 t2 t3 s = true.
Proof. intros H1 H2. apply idle_test_true. auto. Qed.






(** C3 as stated fails: channel 1 has been idle long enough and flushes,
    channel 2 is still moving (count 9, last saved 0).  The record written
    holds 0 for channel 2, its last saved value, not its current count. *)
Lemma flush_record_counterexample :
  let s := set_lastChange (sample 596 835 835 5 9 0) 0 9000 0 in
  let s' := loop 10000 10000 10000 s in
  puts (trace s') = [ {| p1 := 5; p2 := 0; p3 := 0; magic := MAGIC |} ] /\
  flushes Ch1 (trace s') = [ {| p1 := 5; p2 := 0; p3 := 0; magic := MAGIC |} ] /\
  EEPROM_get 0 (eeprom s') = {| p1 := 5; p2 := 0; p3 := 0; magic := MAGIC |} /\
  cnt Ch2 s = 9 /\
  p2 (EEPROM_get 0 (eeprom s')) <> cnt Ch2 s.
Proof.
  cbn zeta.
  assert (E : EEPROM_get 0 (eeprom (loop 10000 10000 10000
                (set_lastChange (sample 596 835 835 5 9 0) 0 9000 0)))
              = {| p1 := 5; p2 := 0; p3 := 0; magic := MAGIC |})
    by (vm_compute; reflexivity).
  split; [vm_compute; reflexivity|].
  split; [vm_compute; reflexivity|].
  split; [exact E|].
  split; [reflexivity|].
  rewrite E. cbn. lia.
Qed.

(** C3 (amended).  Whenever the flush of a channel fires in an iteration,
    whatever edges are served between the statements of the iteration,
    exactly one record is written for it; the record carries the valid
    marker, the triggering channel's snapshot count in that channel's field
    and, in the field of every other channel, that channel's last saved value
    at the time of the write (the value after this iteration's flush tests
    for a channel tested earlier, the value before the iteration for a
    channel tested later).  Another channel's field therefore holds its
    snapshot count when that count equals its last saved value; and the
    triggering channel's last saved value becomes its snapshot count.  After
    the iteration the EEPROM holds the three last saved values and the valid
    marker.  The flush fires when the time elapsed since the channel's
    [lastChange], as read at the test, exceeds [T_IDLE] and the snapshot
    differs from the last saved value. *)
Theorem flush_record (ch : Channel) (pre : nat -> list Edge) (t1 t2 t3 : Z)
    (s : State) :
  let s' := loop_preempted pre t1 t2 t3 s in
  to_ulong (millis_of ch t1 t2 t3 - lastChange_at_test ch pre s) > T_IDLE ->
  cnt ch s <> lastSaved ch s ->
  exists p,
    flushes ch (trace s') = flushes ch (trace s) ++ [p] /\
    magic p = MAGIC /\
    field ch p = cnt ch s /\
    (forall k, k <> ch ->
       field k p = if earlier k ch then lastSaved k s' else lastSaved k s) /\
    (forall k, k <> ch -> cnt k s = lastSaved k s -> field k p = cnt k s) /\
    lastSaved ch s' = cnt ch s /\
    EEPROM_get 0 (eeprom s')
    = {| p1 := to_long (lastSaved1 s'); p2 := to_long (lastSaved2 s');
         p3 := to_long (lastSaved3 s'); magic := MAGIC |}.
Proof.
  cbn zeta. intros H1 H2.
  destruct (loop_preempted_store_facts pre t1 t2 t3 s ch) as (K & F & E & _).
  cbn zeta in K, F, E.
  assert (I : fires ch pre t1 t2 t3 s = true) by now apply fires_true.
  rewrite I in F.
  eexists. split; [exact F|].
  assert (O : forall k, k <> ch ->
            field k
              {| p1 := if decide (ch = Ch1) then cnt1 s
                       else if earlier Ch1 ch
                            then lastSaved1 (loop_preempted pre t1 t2 t3 s)
                            else lastSaved1 s;
                 p2 := if decide (ch = Ch2) then cnt2 s
                       else if earlier Ch2 ch
                            then lastSaved2 (loop_preempted pre t1 t2 t3 s)
                            else lastSaved2 s;
                 p3 := if decide (ch = Ch3) then cnt3 s
                       else if earlier Ch3 ch
                            then lastSaved3 (loop_preempted pre t1 t2 t3 s)
                            else lastSaved3 s;
                 magic := MAGIC |}
            = if earlier k ch then lastSaved k (loop_preempted pre t1 t2 t3 s)
              else lastSaved k s).
  { intros k Hk. destruct k; cbn [field p1 p2 p3 lastSaved];
      rewrite decide_False by congruence; reflexivity. }
  split; [reflexivity|].
  split; [destruct ch; reflexivity|].
  split; [exact O|].
  split.
  { intros k Hk Hc. rewrite (O k Hk), K.
    destruct (earlier k ch); [|congruence].
    destruct (fires k pre t1 t2 t3 s); congruence. }
  split; [rewrite K, I; reflexivity|].
  apply E. destruct ch; rewrite I; rewrite ?orb_true_r; reflexivity.
Qed.

(** [flush_record] in the iteration of the witness above: the record of
    channel 2's flush holds channel 1's last saved value 0, although channel
    1 has counted to 5 and is still moving. *)
Lemma flush_record_witness :
  let s := sample 596 835 835 5 9 0 in
  let s' := loop_preempted edge_before_test 10000 10000 10000 s in
  exists p,
    flushes Ch2 (trace s') = flushes Ch2 (trace s) ++ [p] /\
    magic p = MAGIC /\
    field Ch2 p = cnt Ch2 s /\
    (forall k, k <> Ch2 ->
       field k p = if earlier k Ch2 then lastSaved k s' else lastSaved k s) /\
    (forall k, k <> Ch2 -> cnt k s = lastSaved k s -> field k p = cnt k s) /\
    lastSaved Ch2 s' = cnt Ch2 s /\
    EEPROM_get 0 (eeprom s')
    = {| p1 := to_long (lastSaved1 s'); p2 := to_long (lastSaved2 s');
         p3 := to_long (lastSaved3 s'); magic := MAGIC |}.
Proof.
  cbn zeta.
  refine (flush_record Ch2 edge_before_test 10000 10000 10000
            (sample 596 835 835 5 9 0) _ _).
  - vm_compute. reflexivity.
  - vm_compute. discriminate.
Defined.

End Persistence.


(** ** Claims about the restore at startup *)

Section Restore.

Lemma loadEEPROM_accepts o e :
  magic (EEPROM_get 0 e) = MAGIC ->
  loadEEPROM o e
  = (true, (p1 (EEPROM_get 0 e), p2 (EEPROM_get 0 e), p3 (EEPROM_get 0 e))).
Proof. intros H. unfold loadEEPROM. now rewrite H. Qed.

Lemma loadEEPROM_after_save o o1 o2 o3 e :
  loadEEPROM o (saveEEPROM o1 o2 o3 e) = (true, (to_long o1, to_long o2, to_long o3)).
Proof.
  rewrite loadEEPROM_accepts; rewrite EEPROM_get_save; reflexivity.
Qed.

(** C10 (frame of a failed load).  When the marker read from the EEPROM
    differs from the sentinel, [loadEEPROM] returns [false] and its three
    reference parameters keep the values the caller gave them. *)
Theorem loadEEPROM_rejects (o : Z * Z * Z) (e : gmap N Z) :
  magic (EEPROM_get 0 e) <> MAGIC -> loadEEPROM o e = (false, o).
Proof.
  intros H. unfold loadEEPROM.
  destruct (Z.eqb_spec (magic (EEPROM_get 0 e)) MAGIC); [contradiction | reflexivity].
Qed.

(** [loadEEPROM_rejects] on an erased EEPROM, whose marker reads [0xFFFF]. *)
Lemma loadEEPROM_rejects_witness :
  magic (EEPROM_get 0 (∅ : gmap N Z)) <> MAGIC /\
  loadEEPROM (1, 2, 3) (∅ : gmap N Z) = (false, (1, 2, 3)).
Proof.
  assert (H : magic (EEPROM_get 0 (∅ : gmap N Z)) <> MAGIC)
    by (vm_compute; discriminate).
  split; [exact H | exact (loadEEPROM_rejects (1, 2, 3) ∅ H)].
Defined.

Lemma restore_valid s :
  magic (EEPROM_get 0 (eeprom s)) = MAGIC ->
  restore s
  = adopt (p1 (EEPROM_get 0 (eeprom s))) (p2 (EEPROM_get 0 (eeprom s)))
      (p3 (EEPROM_get 0 (eeprom s))) s.
Proof. intros H. unfold restore. now rewrite loadEEPROM_accepts. Qed.

Lemma restore_invalid s :
  magic (EEPROM_get 0 (eeprom s)) <> MAGIC ->
  restore s = adopt 0 0 0 (call_saveEEPROM AtSetup 0 0 0 s).
Proof.
  intros H. unfold restore, loadEEPROM.
  destruct (Z.eqb_spec (magic (EEPROM_get 0 (eeprom s))) MAGIC);
    [contradiction | reflexivity].
Qed.

(** The targets the calibration computes from the sketch's initialisers. *)
Lemma sketch_targets :
  target_steps (distance1 sketch) (stepsPerMM sketch) = Some 596 /\
  target_steps (distance2 sketch) (stepsPerMM sketch) = Some 835 /\
  target_steps (distance3 sketch) (stepsPerMM sketch) = Some 835.
Proof. repeat split; vm_compute; reflexivity. Qed.

(** With the sketch's parameters [setup] always completes. *)
Lemma setup_sketch s0 :
  setup sketch s0
  = Some (start_motors sketch (set_steps (restore s0) 596 835 835)).
Proof.
  destruct sketch_targets as (E1 & E2 & E3).
  unfold setup. rewrite E1, E2, E3. reflexivity.
Qed.

Lemma setup_inv g s0 s :
  setup g s0 = Some s ->
  exists T1 T2 T3, s = start_motors g (set_steps (restore s0) T1 T2 T3).
Proof.
  unfold setup. intros H.
  destruct (target_steps (distance1 g) (stepsPerMM g)) as [T1|]; [|discriminate].
  destruct (target_steps (distance2 g) (stepsPerMM g)) as [T2|]; [|discriminate].
  destruct (target_steps (distance3 g) (stepsPerMM g)) as [T3|]; [|discriminate].
  exists T1, T2, T3. congruence.
Qed.

(** What the last lines of [setup] leave behind. *)
Lemma start_motors_facts g s :
  let s' := start_motors g s in
  store_view s' = store_view s /\
  (forall k, encoder_view k s' = encoder_view k s) /\
  (forall k, steps k s' = steps k s) /\
  (forall k, motor k s' = mkMotor (to_uint8 (motorspeed k g)) FORWARD) /\
  (forall k, runs k (trace s') = runs k (trace s) ++ [FORWARD]) /\
  trace s' = trace s ++
    [SetSpeed Ch1 (to_uint8 (motorspeed1 g)); Run Ch1 FORWARD;
     SetSpeed Ch2 (to_uint8 (motorspeed2 g)); Run Ch2 FORWARD;
     SetSpeed Ch3 (to_uint8 (motorspeed3 g)); Run Ch3 FORWARD].
Proof.
  cbn zeta. destruct s as [c1 c2 c3 T1 T2 T3 lc1 lc2 lc3 ls1 ls2 ls3 e a b c tr].
  assert (Tr : trace (start_motors g
                 (mkState c1 c2 c3 T1 T2 T3 lc1 lc2 lc3 ls1 ls2 ls3 e a b c tr))
               = tr ++
                 [SetSpeed Ch1 (to_uint8 (motorspeed1 g)); Run Ch1 FORWARD;
                  SetSpeed Ch2 (to_uint8 (motorspeed2 g)); Run Ch2 FORWARD;
                  SetSpeed Ch3 (to_uint8 (motorspeed3 g)); Run Ch3 FORWARD]).
  { unfold start_motors. cbn zeta.
    repeat (rewrite trace_run, trace_setSpeed).
    cbn [trace]. now rewrite <- !app_assoc. }
  split; [|split; [|split; [|split; [|split]]]].
  - unfold store_view. rewrite Tr, store_log_app.
    f_equal. f_equal. exact (app_nil_r (store_log tr)).
  - intros []; reflexivity.
  - intros []; reflexivity.
  - intros []; reflexivity.
  - intros k. rewrite Tr, runs_app. cbn [trace]. f_equal.
    destruct k; reflexivity.
  - exact Tr.
Qed.

Lemma adopt_views o1 o2 o3 s :
  let s' := adopt o1 o2 o3 s in
  (cnt1 s', cnt2 s', cnt3 s') = (o1, o2, o3) /\
  (lastSaved1 s', lastSaved2 s', lastSaved3 s') = (o1, o2, o3) /\
  eeprom s' = eeprom s /\ trace s' = trace s.
Proof. repeat split. Qed.

(** The calibration and the motor start-up leave what [restore] did
    untouched. *)
Lemma after_restore g T1 T2 T3 s :
  let s' := start_motors g (set_steps s T1 T2 T3) in
  (cnt1 s', cnt2 s', cnt3 s') = (cnt1 s, cnt2 s, cnt3 s) /\
  (lastSaved1 s', lastSaved2 s', lastSaved3 s')
    = (lastSaved1 s, lastSaved2 s, lastSaved3 s) /\
  eeprom s' = eeprom s /\
  puts (trace s') = puts (trace s).
Proof.
  cbn zeta.
  destruct (start_motors_facts g (set_steps s T1 T2 T3)) as (V & En & _).
  cbn zeta in V, En. unfold store_view in V.
  pose proof (f_equal (fun v => v.1.1) V) as V1.
  pose proof (f_equal (fun v => v.1.2) V) as V2.
  pose proof (f_equal snd V) as V3.
  pose proof (f_equal fst (En Ch1)) as E1.
  pose proof (f_equal fst (En Ch2)) as E2.
  pose proof (f_equal fst (En Ch3)) as E3.
  cbn [fst snd encoder_view cnt] in V1, V2, V3, E1, E2, E3.
  rewrite !puts_store_log, V1, V2, V3, E1, E2, E3. repeat split.
Qed.

(** C4 (restore round trip), for the sketch as written and any previous
    content [e] of the EEPROM.  After a record with counts (12, -7, 3) (more
    generally any three values of type [long]) and the valid marker has been
    written, [setup] completes with exactly these counts, each channel's last
    saved value equal to its count, and writes nothing.  From a record whose
    marker differs from the sentinel, [setup] completes with counts (0, 0, 0),
    last saved values 0, and has written one fresh record, all zero with the
    valid marker, which is what the EEPROM then holds.  In every case the
    EEPROM holds a valid record after [setup]. *)
Theorem restore_round_trip (e : gmap N Z) :
  (exists s,
     setup sketch (power_on (saveEEPROM 12 (-7) 3 e)) = Some s /\
     (cnt1 s, cnt2 s, cnt3 s) = (12, -7, 3) /\
     (lastSaved1 s, lastSaved2 s, lastSaved3 s) = (12, -7, 3) /\
     puts (trace s) = []) /\
  (forall o1 o2 o3, is_long o1 -> is_long o2 -> is_long o3 ->
     exists s,
       setup sketch (power_on (saveEEPROM o1 o2 o3 e)) = Some s /\
       (cnt1 s, cnt2 s, cnt3 s) = (o1, o2, o3) /\
       (lastSaved1 s, lastSaved2 s, lastSaved3 s) = (o1, o2, o3) /\
       puts (trace s) = []) /\
  (magic (EEPROM_get 0 e) <> MAGIC ->
     exists s,
       setup sketch (power_on e) = Some s /\
       (cnt1 s, cnt2 s, cnt3 s) = (0, 0, 0) /\
       (lastSaved1 s, lastSaved2 s, lastSaved3 s) = (0, 0, 0) /\
       puts (trace s) = [ {| p1 := 0; p2 := 0; p3 := 0; magic := MAGIC |} ] /\
       EEPROM_get 0 (eeprom s) = {| p1 := 0; p2 := 0; p3 := 0; magic := MAGIC |}) /\
  (exists s, setup sketch (power_on e) = Some s /\ valid_store (eeprom s) = true).
Proof.
  assert (Gen : forall o1 o2 o3, is_long o1 -> is_long o2 -> is_long o3 ->
            exists s,
              setup sketch (power_on (saveEEPROM o1 o2 o3 e)) = Some s /\
              (cnt1 s, cnt2 s, cnt3 s) = (o1, o2, o3) /\
              (lastSaved1 s, lastSaved2 s, lastSaved3 s) = (o1, o2, o3) /\
              puts (trace s) = []).
  { intros o1 o2 o3 L1 L2 L3. eexists. split; [apply setup_sketch|].
    destruct (after_restore sketch 596 835 835
                (restore (power_on (saveEEPROM o1 o2 o3 e)))) as (C & S & _ & P).
    cbn zeta in C, S, P. rewrite C, S, P.
    rewrite restore_valid by (cbn [eeprom power_on]; now rewrite EEPROM_get_save).
    cbn [eeprom power_on]. rewrite EEPROM_get_save. cbn [p1 p2 p3].
    rewrite !to_long_id by assumption. repeat split. }
  split; [|split; [exact Gen|split]].
  - apply Gen; unfold is_long, LONG_MIN, LONG_MAX; lia.
  - intros Bad. eexists. split; [apply setup_sketch|].
    destruct (after_restore sketch 596 835 835 (restore (power_on e)))
      as (C & S & E & P).
    cbn zeta in C, S, E, P. rewrite C, S, E, P.
    rewrite restore_invalid by exact Bad.
    repeat split. cbn [adopt eeprom call_saveEEPROM set_eeprom emit set_cnt
                       set_lastSaved power_on].
    apply EEPROM_get_save.
  - eexists. split; [apply setup_sketch|].
    destruct (after_restore sketch 596 835 835 (restore (power_on e)))
      as (_ & _ & E & _).
    cbn zeta in E. rewrite E.
    destruct (Z.eq_dec (magic (EEPROM_get 0 e)) MAGIC) as [Ok|Bad].
    + rewrite restore_valid by exact Ok. unfold valid_store.
      cbn [adopt eeprom set_cnt set_lastSaved power_on]. now rewrite Ok.
    + rewrite restore_invalid by exact Bad.
      cbn [adopt eeprom call_saveEEPROM set_eeprom emit set_cnt
             set_lastSaved power_on].
      apply valid_store_save.
Qed.

(** [restore_round_trip] on an erased EEPROM, whose marker reads [0xFFFF],
    and on one holding the counts (2147483647, -2147483648, 0). *)
Lemma restore_round_trip_witness :
  (exists s,
     setup sketch (power_on (saveEEPROM 2147483647 (-2147483648) 0 ∅)) = Some s /\
     (cnt1 s, cnt2 s, cnt3 s) = (2147483647, -2147483648, 0) /\
     (lastSaved1 s, lastSaved2 s, lastSaved3 s) = (2147483647, -2147483648, 0) /\
     puts (trace s) = []) /\
  (exists s,
     setup sketch (power_on ∅) = Some s /\
     (cnt1 s, cnt2 s, cnt3 s) = (0, 0, 0) /\
     (lastSaved1 s, lastSaved2 s, lastSaved3 s) = (0, 0, 0) /\
     puts (trace s) = [ {| p1 := 0; p2 := 0; p3 := 0; magic := MAGIC |} ] /\
     EEPROM_get 0 (eeprom s) = {| p1 := 0; p2 := 0; p3 := 0; magic := MAGIC |}).
Proof.
  split.
  - refine (proj1 (proj2 (restore_round_trip ∅)) 2147483647 (-2147483648) 0 _ _ _);
      vm_compute; split; discriminate.
  - refine (proj1 (proj2 (proj2 (restore_round_trip ∅))) _).
    vm_compute. discriminate.
Defined.

End Restore.


(** ** Claims about startup and about every write *)

Section Startup.

Lemma restore_runs s k : runs k (trace (restore s)) = runs k (trace s).
Proof.
  unfold restore.
  destruct (loadEEPROM (0, 0, 0) (eeprom s)) as [[] [[o1 o2] o3]].
  - reflexivity.
  - unfold adopt, call_saveEEPROM.
    cbn [trace set_lastSaved set_cnt emit set_eeprom].
    rewrite runs_app. apply app_nil_r.
Qed.

(** C9 (startup direction).  Whenever [setup] completes, it has set each
    motor to its configured speed (as a [uint8_t]) and commanded it
    [FORWARD], whatever counts were restored; with the sketch's parameters
    [setup] always completes, the speeds are 30, 40 and 40 and the only run
    command each motor has received is [FORWARD].  This holds even when a
    restored count is already at or beyond the target: no bounds test is
    made before the first iteration of [loop]. *)
Theorem startup_forward :
  (forall g s0 s, setup g s0 = Some s ->
     forall ch,
       motor ch s = mkMotor (to_uint8 (motorspeed ch g)) FORWARD /\
       runs ch (trace s) = runs ch (trace s0) ++ [FORWARD]) /\
  (forall e, exists s,
     setup sketch (power_on e) = Some s /\
     forall ch,
       speed (motor ch s) = motorspeed ch sketch /\
       dir (motor ch s) = FORWARD /\
       runs ch (trace s) = [FORWARD]) /\
  (exists s,
     setup sketch (power_on (saveEEPROM 1000 0 0 ∅)) = Some s /\
     cnt Ch1 s = 1000 /\ steps Ch1 s = 596 /\ dir (motor Ch1 s) = FORWARD).
Proof.
  assert (Gen : forall g s0 s, setup g s0 = Some s ->
            forall ch,
              motor ch s = mkMotor (to_uint8 (motorspeed ch g)) FORWARD /\
              runs ch (trace s) = runs ch (trace s0) ++ [FORWARD]).
  { intros g s0 s H ch.
    destruct (setup_inv g s0 s H) as (T1 & T2 & T3 & ->).
    destruct (start_motors_facts g (set_steps (restore s0) T1 T2 T3))
      as (_ & _ & _ & M & R & _).
    cbn zeta in M, R. rewrite M, R. split; [reflexivity|].
    f_equal. change (trace (set_steps (restore s0) T1 T2 T3))
      with (trace (restore s0)). apply restore_runs. }
  split; [exact Gen | split].
  - intros e. eexists. split; [apply setup_sketch|].
    intros ch.
    destruct (Gen sketch (power_on e) _ (setup_sketch (power_on e)) ch) as [M R].
    rewrite M, R. destruct ch; repeat split.
  - eexists. split; [apply setup_sketch|].
    destruct (Gen sketch _ _ (setup_sketch (power_on (saveEEPROM 1000 0 0 ∅))) Ch1)
      as [M _].
    rewrite M.
    destruct (after_restore sketch 596 835 835
                (restore (power_on (saveEEPROM 1000 0 0 ∅)))) as (C & _).
    cbn zeta in C. apply (f_equal (fun v => v.1.1)) in C. cbn [fst] in C.
    cbn [cnt]. rewrite C.
    rewrite restore_valid by (cbn [eeprom power_on]; now rewrite EEPROM_get_save).
    cbn [eeprom power_on]. rewrite EEPROM_get_save.
    repeat split.
Qed.

(** [startup_forward] for the sketch started on an erased EEPROM. *)
Lemma startup_forward_witness :
  let s := start_motors sketch (set_steps (restore (power_on ∅)) 596 835 835) in
  setup sketch (power_on ∅) = Some s /\
  motor Ch2 s = mkMotor (to_uint8 (motorspeed Ch2 sketch)) FORWARD /\
  runs Ch2 (trace s) = runs Ch2 (trace (power_on ∅)) ++ [FORWARD].
Proof.
  cbn zeta. split; [apply setup_sketch|].
  exact (proj1 startup_forward sketch (power_on ∅) _ (setup_sketch (power_on ∅)) Ch2).
Defined.

Lemma flushed_ok f ch c v : view_ok v -> view_ok (flushed f ch c v).
Proof.
  destruct f; [|auto]. destruct v as [[e log] [[a b] d]].
  unfold view_ok, flushed. cbn [fst snd]. intros [V L].
  destruct ch; cbn [with_saved fst snd]; (split; [apply valid_store_save|]);
    apply Forall_app; (split; [exact L|]); repeat constructor.
Qed.

Lemma restore_ok e : view_ok (store_view (restore (power_on e))).
Proof.
  destruct (Z.eq_dec (magic (EEPROM_get 0 e)) MAGIC) as [Ok|Bad].
  - rewrite restore_valid by exact Ok.
    unfold view_ok, store_view. split; cbn [fst snd].
    + unfold valid_store. cbn [adopt eeprom set_cnt set_lastSaved power_on].
      now rewrite Ok.
    + constructor.
  - rewrite restore_invalid by exact Bad.
    unfold view_ok, store_view. split; cbn [fst snd].
    + cbn [adopt eeprom call_saveEEPROM set_eeprom emit set_cnt
             set_lastSaved power_on].
      apply valid_store_save.
    + repeat constructor.
Qed.

(** In every state the running sketch reaches the storage side is in order. *)
Lemma reachable_ok g s : reachable g s -> view_ok (store_view s).
Proof.
  induction 1 as [e s H | ed s R IH | pre t1 t2 t3 s R IH].
  - destruct (setup_inv g _ s H) as (T1 & T2 & T3 & ->).
    destruct (start_motors_facts g (set_steps (restore (power_on e)) T1 T2 T3))
      as (V & _).
    cbn zeta in V. rewrite V. apply (restore_ok e).
  - now rewrite isr_store_silent.
  - unfold loop_preempted. cbn zeta.
    change flush1 with (flush Ch1). change flush2 with (flush Ch2).
    change flush3 with (flush Ch3).
    change bounds1 with (bounds Ch1). change bounds2 with (bounds Ch2).
    change bounds3 with (bounds Ch3).
    rewrite telemetry_store_silent, isrs_store_silent.
    rewrite flush_store_view. apply flushed_ok. rewrite isrs_store_silent.
    rewrite flush_store_view. apply flushed_ok. rewrite isrs_store_silent.
    rewrite flush_store_view. apply flushed_ok. rewrite isrs_store_silent.
    rewrite bounds_store_silent, isrs_store_silent.
    rewrite bounds_store_silent, isrs_store_silent.
    rewrite bounds_store_silent, isrs_store_silent.
    exact IH.
Qed.

(** C8 (validity marker on every write).  A call of [saveEEPROM], from any
    place of the sketch, leaves a record with the marker [0xBEEF] in the
    EEPROM, which a following [loadEEPROM] accepts; and in every state the
    running sketch reaches (after [setup] from power-on with any EEPROM
    content, then any interleaving of served edges and loop iterations) every
    record written so far carries the marker and the EEPROM holds a record
    that [loadEEPROM] accepts. *)
Theorem marker_on_every_write (g : Params) :
  (forall site o1 o2 o3 s o,
     let s' := call_saveEEPROM site o1 o2 o3 s in
     magic (EEPROM_get 0 (eeprom s')) = MAGIC /\
     last (puts (trace s')) = Some {| p1 := o1; p2 := o2; p3 := o3; magic := MAGIC |} /\
     loadEEPROM o (eeprom s') = (true, (to_long o1, to_long o2, to_long o3))) /\
  (forall s, reachable g s ->
     Forall (fun p => magic p = MAGIC) (puts (trace s)) /\
     magic (EEPROM_get 0 (eeprom s)) = MAGIC /\
     (forall o, fst (loadEEPROM o (eeprom s)) = true)).
Proof.
  split.
  - intros site o1 o2 o3 s o. cbn zeta. unfold call_saveEEPROM.
    cbn [eeprom trace emit set_eeprom].
    rewrite EEPROM_get_save, loadEEPROM_after_save, puts_app.
    repeat split. cbn. apply last_snoc.
  - intros s R. destruct (reachable_ok g s R) as [V L].
    unfold store_view in V, L. cbn [fst snd] in V, L.
    unfold valid_store in V. apply Z.eqb_eq in V.
    split; [|split; [exact V|]].
    + rewrite puts_store_log. apply Forall_map.
      eapply Forall_impl; [exact L|]. auto.
    + intros o. now rewrite loadEEPROM_accepts.
Qed.

(** [marker_on_every_write] along a short run of the sketch from an erased
    EEPROM: startup, one edge on channel 1, one iteration six seconds
    later. *)
Lemma marker_on_every_write_witness :
  let s0 := start_motors sketch (set_steps (restore (power_on ∅)) 596 835 835) in
  let s := loop_preempted quiet 6000 6000 6000 (isr (mkEdge Ch1 true true 10) s0) in
  reachable sketch s /\
  Forall (fun p => magic p = MAGIC) (puts (trace s)) /\
  magic (EEPROM_get 0 (eeprom s)) = MAGIC /\
  (forall o, fst (loadEEPROM o (eeprom s)) = true).
Proof.
  cbn zeta.
  assert (R : reachable sketch
                (loop_preempted quiet 6000 6000 6000
                   (isr (mkEdge Ch1 true true 10)
                      (start_motors sketch
                         (set_steps (restore (power_on ∅)) 596 835 835))))).
  { apply reach_loop, reach_isr, (reach_setup sketch ∅), setup_sketch. }
  split; [exact R|].
  exact (proj2 (marker_on_every_write sketch) _ R).
Defined.

End Startup.

(** ** Claims about the calibration *)

Section Calibration.

Lemma PI_enclosure : (3.14159265 < PI < 3.14159266)%R.
Proof.
  pose proof (PI_2_3_7_ineq 4) as H.
  unfold sum_f_R0, tg_alt, PI_2_3_7_tg, Ratan_seq in H.
  simpl in H. lra.
Qed.

Lemma powerRZ_2_pos p : powerRZ 2 (Zpos p) = IZR (2 ^ Zpos p).
Proof. cbn [powerRZ]. rewrite pow_IZR. now rewrite positive_nat_Z. Qed.

(** Shifting a mantissa by the exponent discards the fractional part. *)
Lemma shift_bounds (m : positive) (e : Z) :
  (IZR (Z.shiftl (Zpos m) e) <= IZR (Zpos m) * powerRZ 2 e
   < IZR (Z.shiftl (Zpos m) e) + 1)%R.
Proof.
  destruct e as [|p|p].
  - rewrite Z.shiftl_0_r. change (powerRZ 2 0) with 1%R. lra.
  - rewrite Z.shiftl_mul_pow2 by lia. rewrite powerRZ_2_pos, <- mult_IZR. lra.
  - change (Z.shiftl (Zpos m) (Zneg p)) with (Z.shiftr (Zpos m) (Zpos p)).
    rewrite Z.shiftr_div_pow2 by lia.
    change (Zneg p) with (- Zpos p).
    rewrite powerRZ_neg', powerRZ_2_pos.
    set (d := 2 ^ Zpos p).
    assert (D : 0 < d) by (apply Z.pow_pos_nonneg; lia).
    assert (Dr : (0 < IZR d)%R) by (apply IZR_lt; exact D).
    pose proof (Z.mul_div_le (Zpos m) d D) as Lo.
    pose proof (Z.mul_succ_div_gt (Zpos m) d D) as Hi.
    apply IZR_le in Lo. apply IZR_lt in Hi.
    rewrite mult_IZR in Lo. rewrite mult_IZR, succ_IZR in Hi.
    split.
    + apply Rmult_le_reg_r with (IZR d); [exact Dr|].
      rewrite Rmult_assoc, Rinv_l by lra. lra.
    + apply Rmult_lt_reg_r with (IZR d); [exact Dr|].
      rewrite Rmult_assoc, Rinv_l by lra. lra.
Qed.

(** [int(x)] is [x] truncated toward zero. *)
Lemma trunc_truncated s m e :
  Exact.truncated (Float.trunc (S754_finite s m e))
    (Float.to_R (S754_finite s m e)).
Proof.
  unfold Exact.truncated, Float.trunc, Float.to_R.
  pose proof (shift_bounds m e) as [Lo Hi].
  assert (Q : (0 <= IZR (Z.shiftl (Zpos m) e))%R)
    by (apply IZR_le, Z.shiftl_nonneg; lia).
  assert (M : (0 < IZR (Zpos m))%R) by (apply IZR_lt; lia).
  destruct s; cbn [cond_Zopp].
  - rewrite !opp_IZR. rewrite <- Ropp_mult_distr_l, !Rabs_Ropp.
    rewrite !Rabs_pos_eq by lra. split; [lra | nra].
  - rewrite !Rabs_pos_eq by lra. split; [lra | nra].
Qed.

Lemma int_of_float_truncated x z :
  Float.int_of_float x = Some z -> Exact.truncated z (Float.to_R x).
Proof.
  destruct x as [s|s| |s m e]; cbn [Float.int_of_float]; try discriminate.
  - intros [= <-]. unfold Exact.truncated. cbn [Float.to_R].
    rewrite Rabs_R0. split; lra.
  - case_match; [|discriminate]. intros [= <-]. apply trunc_truncated.
Qed.

Lemma stepsPerMM_sketch : stepsPerMM sketch = S754_finite false 12516454 (-19).
Proof. vm_compute. reflexivity. Qed.

(** The sketch's parameters are the numbers written in it. *)
Lemma sketch_values :
  Float.to_R (distance1 sketch) = 25%R /\
  Float.to_R (distance2 sketch) = 35%R /\
  Float.to_R (distance3 sketch) = 35%R /\
  Float.to_R (hall_feedback_resolution sketch) = 525%R /\
  Float.to_R (winch_diameter sketch) = 7%R.
Proof.
  assert (E1 : distance1 sketch = S754_finite false 13107200 (-19))
    by (vm_compute; reflexivity).
  assert (E2 : distance2 sketch = S754_finite false 9175040 (-18))
    by (vm_compute; reflexivity).
  assert (E3 : distance3 sketch = S754_finite false 9175040 (-18))
    by (vm_compute; reflexivity).
  assert (E4 : hall_feedback_resolution sketch = S754_finite false 8601600 (-14))
    by (vm_compute; reflexivity).
  assert (E5 : winch_diameter sketch = S754_finite false 14680064 (-21))
    by (vm_compute; reflexivity).
  rewrite E1, E2, E3, E4, E5. unfold Float.to_R, cond_Zopp.
  repeat split; simpl powerRZ; lra.
Qed.

(** The exact quotients lie strictly between consecutive integers. *)
Lemma exact_steps_25 : (596.8 < Exact.steps 25 525 7 < 596.9)%R.
Proof.
  pose proof PI_enclosure as [Lo Hi].
  unfold Exact.steps, Exact.stepsPerUnitLength.
  assert (P : (0 < PI * 7)%R) by lra.
  split; apply Rmult_lt_reg_r with (PI * 7)%R; try exact P; field_simplify; lra.
Qed.

Lemma exact_steps_35 : (835.5 < Exact.steps 35 525 7 < 835.6)%R.
Proof.
  pose proof PI_enclosure as [Lo Hi].
  unfold Exact.steps, Exact.stepsPerUnitLength.
  assert (P : (0 < PI * 7)%R) by lra.
  split; apply Rmult_lt_reg_r with (PI * 7)%R; try exact P; field_simplify; lra.
Qed.

Lemma truncated_between z x :
  0 <= z -> (IZR z <= x < IZR z + 1)%R -> Exact.truncated z x.
Proof.
  intros Hz [Lo Hi]. apply IZR_le in Hz. unfold Exact.truncated.
  rewrite !Rabs_pos_eq by lra. split; [lra | nra].
Qed.

Lemma not_nearest z x : (IZR z + / 2 < x)%R -> ~ Exact.nearest z x.
Proof.
  unfold Exact.nearest. intros H N.
  unfold Rabs in N. destruct (Rcase_abs _) in N; lra.
Qed.

Lemma stepsPerMM_close :
  (Rabs (Float.to_R (stepsPerMM sketch) - Exact.stepsPerUnitLength 525 7)
   < powerRZ 2 (-20))%R.
Proof.
  rewrite stepsPerMM_sketch.
  unfold Float.to_R, Exact.stepsPerUnitLength, cond_Zopp.
  pose proof PI_enclosure as [Lo Hi].
  assert (P : (0 < PI * 7)%R) by lra.
  simpl powerRZ.
  apply Rabs_def1; apply Rmult_lt_reg_r with (PI * 7)%R; try exact P;
    field_simplify; lra.
Qed.

Lemma setup_steps g s0 s :
  setup g s0 = Some s ->
  forall k, target_steps (distance k g) (stepsPerMM g) = Some (steps k s).
Proof.
  unfold setup. intros H k.
  destruct (target_steps (distance1 g) (stepsPerMM g)) as [T1|] eqn:E1; [|discriminate].
  destruct (target_steps (distance2 g) (stepsPerMM g)) as [T2|] eqn:E2; [|discriminate].
  destruct (target_steps (distance3 g) (stepsPerMM g)) as [T3|] eqn:E3; [|discriminate].
  injection H as <-.
  destruct (start_motors_facts g (set_steps (restore s0) T1 T2 T3))
    as (_ & _ & S & _).
  cbn zeta in S. rewrite S. destruct k; assumption.
Qed.

(** C6 as stated fails: for distance 25, resolution 525 and diameter 7 the
    sketch computes the target 596, while [25 * 525 / (π * 7)] lies between
    596.8 and 596.9, so rounding it gives 597. *)
Lemma calibration_counterexample :
  let s := start_motors sketch (set_steps (restore (power_on ∅)) 596 835 835) in
  setup sketch (power_on ∅) = Some s /\
  steps Ch1 s = 596 /\
  Exact.nearest 597 (Exact.steps 25 525 7) /\
  ~ Exact.nearest (steps Ch1 s) (Exact.steps 25 525 7).
Proof.
  cbn zeta. pose proof exact_steps_25 as [Lo Hi].
  split; [apply setup_sketch|]. split; [reflexivity|]. split.
  - unfold Exact.nearest. apply Rabs_le. lra.
  - apply not_nearest.
    change (steps Ch1 (start_motors sketch
              (set_steps (restore (power_on ∅)) 596 835 835))) with 596.
    lra.
Qed.

(** C6 (amended).  Whenever [setup] completes, each channel's target is
    [int(distance * stepsPerMM)], the binary32 product with its fractional
    part discarded (truncation toward zero, no rounding to nearest).  With
    the sketch's parameters [setup] always completes and the targets are 596,
    835 and 835; [stepsPerMM] is the binary32 number nearest to
    [525 / (PI * 7)] as computed in binary64 and differs from the exact
    [encoderResolution / (π * spoolDiameter)] by less than [2^-20]; and 596
    and 835 are the truncations of the exact values of
    [25 * 525 / (π * 7)] and [35 * 525 / (π * 7)].  The computation is a
    function of its inputs: the same inputs give the same integer. *)
Theorem calibration_truncates :
  (forall g s0 s, setup g s0 = Some s ->
     forall k,
       let x := Float.mul32 (distance k g) (stepsPerMM g) in
       Float.int_of_float x = Some (steps k s) /\
       Exact.truncated (steps k s) (Float.to_R x)) /\
  (forall e, exists s,
     setup sketch (power_on e) = Some s /\
     (steps1 s, steps2 s, steps3 s) = (596, 835, 835)) /\
  stepsPerMM sketch
    = Float.to_float
        (Float.div64 (Float.to_double (hall_feedback_resolution sketch))
           (Float.mul64 Float.PI (Float.to_double (winch_diameter sketch)))) /\
  (Rabs (Float.to_R (stepsPerMM sketch) - Exact.stepsPerUnitLength 525 7)
   < powerRZ 2 (-20))%R /\
  Exact.truncated 596 (Exact.steps 25 525 7) /\
  Exact.truncated 835 (Exact.steps 35 525 7) /\
  (forall d spmm z z',
     target_steps d spmm = Some z -> target_steps d spmm = Some z' -> z = z').
Proof.
  split; [|split; [|split; [|split; [|split; [|split]]]]].
  - intros g s0 s H k. cbn zeta.
    pose proof (setup_steps g s0 s H k) as E. unfold target_steps in E.
    split; [exact E | now apply int_of_float_truncated].
  - intros e. eexists. split; [apply setup_sketch | reflexivity].
  - vm_compute. reflexivity.
  - exact stepsPerMM_close.
  - pose proof exact_steps_25. apply truncated_between; [lia | lra].
  - pose proof exact_steps_35. apply truncated_between; [lia | lra].
  - congruence.
Qed.

(** [calibration_truncates] for channel 1 of the sketch started on an erased
    EEPROM. *)
Lemma calibration_truncates_witness :
  let s := start_motors sketch (set_steps (restore (power_on ∅)) 596 835 835) in
  let x := Float.mul32 (distance Ch1 sketch) (stepsPerMM sketch) in
  setup sketch (power_on ∅) = Some s /\
  Float.int_of_float x = Some (steps Ch1 s) /\
  Exact.truncated (steps Ch1 s) (Float.to_R x).
Proof.
  cbn zeta. split; [apply setup_sketch|].
  exact (proj1 calibration_truncates sketch (power_on ∅) _
           (setup_sketch (power_on ∅)) Ch1).
Defined.

End Calibration.

(** * Further properties of the sketches *)

(** ** Invariants of every reachable state *)

Section Invariants.

Lemma isr_counters_ok ed s : counters_ok s -> counters_ok (isr ed s).
Proof.
  intros H k. rewrite isr_cnt. case_decide; [apply to_long_range | apply H].
Qed.

Lemma isrs_counters_ok eds s : counters_ok s -> counters_ok (isrs eds s).
Proof.
  revert s. induction eds as [|ed r IH]; intros s H; [exact H|].
  rewrite isrs_cons. apply IH, isr_counters_ok, H.
Qed.

Lemma silent_counters_ok f s :
  encoder_silent f -> counters_ok s -> counters_ok (f s).
Proof.
  intros E H k. pose proof (f_equal fst (E s k)) as C.
  cbn [encoder_view fst] in C. rewrite C. apply H.
Qed.

Lemma flushed_mirror f ch c v : is_long c -> mirror_ok v -> mirror_ok (flushed f ch c v).
Proof.
  intros Lc. destruct f; [|auto]. destruct v as [[e log] [[a b] d]].
  unfold mirror_ok, flushed. intros (E & La & Lb & Ld).
  destruct ch; cbn [with_saved]; rewrite EEPROM_get_save;
    rewrite !to_long_id by assumption; auto.
Qed.

Lemma restore_mirror e :
  mirror_ok (store_view (restore (power_on e))) /\
  counters_ok (restore (power_on e)).
Proof.
  destruct (Z.eq_dec (magic (EEPROM_get 0 e)) MAGIC) as [Ok|Bad].
  - rewrite restore_valid by exact Ok.
    cbn [eeprom power_on]. unfold mirror_ok, store_view.
    cbn [adopt eeprom set_cnt set_lastSaved power_on lastSaved1 lastSaved2
           lastSaved3 cnt1 cnt2 cnt3].
    assert (L : is_long (p1 (EEPROM_get 0 e)) /\ is_long (p2 (EEPROM_get 0 e))
                /\ is_long (p3 (EEPROM_get 0 e))).
    { unfold EEPROM_get, Persist_of_bytes. cbn [p1 p2 p3].
      repeat split; apply to_long_range. }
    destruct L as (L1 & L2 & L3).
    split; [|intros []; assumption].
    split; [|auto]. destruct (EEPROM_get 0 e) as [a b d m]. cbn in Ok |- *.
    now rewrite Ok.
  - rewrite restore_invalid by exact Bad.
    unfold mirror_ok, store_view.
    cbn [adopt eeprom call_saveEEPROM set_eeprom emit set_cnt set_lastSaved
           power_on lastSaved1 lastSaved2 lastSaved3 cnt1 cnt2 cnt3].
    assert (Z0 : is_long 0) by (unfold is_long, LONG_MIN, LONG_MAX; lia).
    split; [|intros []; exact Z0].
    rewrite EEPROM_get_save, to_long_id by exact Z0. auto.
Qed.

(** The storage side and the counters along a run. *)
Lemma reachable_mirror g s :
  reachable g s -> mirror_ok (store_view s) /\ counters_ok s.
Proof.
  induction 1 as [e s H | ed s R [IM IC] | pre t1 t2 t3 s R [IM IC]].
  - destruct (setup_inv g _ s H) as (T1 & T2 & T3 & ->).
    destruct (start_motors_facts g (set_steps (restore (power_on e)) T1 T2 T3))
      as (V & En & _).
    cbn zeta in V, En. destruct (restore_mirror e) as [M C].
    split; [rewrite V; exact M|].
    intros k. pose proof (f_equal fst (En k)) as Ck.
    cbn [encoder_view fst] in Ck. rewrite Ck. apply (C k).
  - split; [now rewrite isr_store_silent | now apply isr_counters_ok].
  - assert (L1 : is_long (cnt1 s)) by apply (IC Ch1).
    assert (L2 : is_long (cnt2 s)) by apply (IC Ch2).
    assert (L3 : is_long (cnt3 s)) by apply (IC Ch3).
    unfold loop_preempted. cbn zeta.
    change flush1 with (flush Ch1). change flush2 with (flush Ch2).
    change flush3 with (flush Ch3).
    change bounds1 with (bounds Ch1). change bounds2 with (bounds Ch2).
    change bounds3 with (bounds Ch3).
    split.
    + rewrite telemetry_store_silent, isrs_store_silent.
      rewrite flush_store_view. apply flushed_mirror; [exact L3|].
      rewrite isrs_store_silent.
      rewrite flush_store_view. apply flushed_mirror; [exact L2|].
      rewrite isrs_store_silent.
      rewrite flush_store_view. apply flushed_mirror; [exact L1|].
      rewrite isrs_store_silent.
      rewrite bounds_store_silent, isrs_store_silent.
      rewrite bounds_store_silent, isrs_store_silent.
      rewrite bounds_store_silent, isrs_store_silent.
      exact IM.
    + apply silent_counters_ok; [apply telemetry_encoder_silent|].
      apply isrs_counters_ok.
      apply silent_counters_ok; [apply flush_encoder_silent|].
      apply isrs_counters_ok.
      apply silent_counters_ok; [apply flush_encoder_silent|].
      apply isrs_counters_ok.
      apply silent_counters_ok; [apply flush_encoder_silent|].
      apply isrs_counters_ok.
      apply silent_counters_ok; [apply bounds_encoder_silent|].
      apply isrs_counters_ok.
      apply silent_counters_ok; [apply bounds_encoder_silent|].
      apply isrs_counters_ok.
      apply silent_counters_ok; [apply bounds_encoder_silent|].
      apply isrs_counters_ok. exact IC.
Qed.

(** X1.  In every state the running sketch reaches, whatever edges were
    served and whenever the iterations ran, the EEPROM holds exactly the
    three last saved values under the sentinel, and the counters and the
    last saved values are values of type [long]. *)
Theorem storage_mirrors_lastSaved (g : Params) (s : State) :
  reachable g s ->
  EEPROM_get 0 (eeprom s)
  = {| p1 := lastSaved1 s; p2 := lastSaved2 s; p3 := lastSaved3 s;
       magic := MAGIC |} /\
  (forall k, is_long (lastSaved k s)) /\
  (forall k, is_long (cnt k s)).
Proof.
  intros R. destruct (reachable_mirror g s R) as [M C].
  unfold mirror_ok, store_view in M. destruct M as (E & L1 & L2 & L3).
  split; [exact E|]. split; [intros []; assumption | exact C].
Qed.

Lemma edge_pending_reachable : reachable sketch edge_pending.
Proof.
  unfold edge_pending, booted.
  apply reach_isr, (reach_setup sketch ∅), setup_sketch.
Qed.

Lemma after_edge_reachable : reachable sketch after_edge.
Proof.
  unfold after_edge, booted.
  apply reach_loop, reach_isr, (reach_setup sketch ∅), setup_sketch.
Qed.

Lemma storage_mirrors_lastSaved_witness :
  reachable sketch after_edge /\
  EEPROM_get 0 (eeprom after_edge)
  = {| p1 := lastSaved1 after_edge; p2 := lastSaved2 after_edge;
       p3 := lastSaved3 after_edge; magic := MAGIC |}.
Proof.
  split; [exact after_edge_reachable|].
  exact (proj1 (storage_mirrors_lastSaved sketch after_edge after_edge_reachable)).
Defined.

(** X2.  Power cycle: if the sketch is restarted from the EEPROM of any
    state it reached, [setup] completes with every counter equal to the
    value last saved for its channel, writes nothing and leaves the EEPROM
    as it was; movement since the last flush is lost. *)
Theorem power_cycle_restores_lastSaved (g : Params) (s : State) :
  reachable g s ->
  exists s',
    setup sketch (power_on (eeprom s)) = Some s' /\
    (cnt1 s', cnt2 s', cnt3 s') = (lastSaved1 s, lastSaved2 s, lastSaved3 s) /\
    (lastSaved1 s', lastSaved2 s', lastSaved3 s')
      = (lastSaved1 s, lastSaved2 s, lastSaved3 s) /\
    puts (trace s') = [] /\
    eeprom s' = eeprom s.
Proof.
  intros R. destruct (reachable_mirror g s R) as [M _].
  unfold mirror_ok, store_view in M. destruct M as (E & _).
  eexists. split; [apply setup_sketch|].
  destruct (after_restore sketch 596 835 835 (restore (power_on (eeprom s))))
    as (C & S & Ee & P).
  cbn zeta in C, S, Ee, P. rewrite C, S, Ee, P.
  rewrite restore_valid by (cbn [eeprom power_on]; now rewrite E).
  cbn [eeprom power_on]. rewrite E. repeat split.
Qed.

Lemma power_cycle_restores_lastSaved_witness :
  reachable sketch after_edge /\
  exists s',
    setup sketch (power_on (eeprom after_edge)) = Some s' /\
    (cnt1 s', cnt2 s', cnt3 s')
      = (lastSaved1 after_edge, lastSaved2 after_edge, lastSaved3 after_edge) /\
    (lastSaved1 s', lastSaved2 s', lastSaved3 s')
      = (lastSaved1 after_edge, lastSaved2 after_edge, lastSaved3 after_edge) /\
    puts (trace s') = [] /\
    eeprom s' = eeprom after_edge.
Proof.
  split; [exact after_edge_reachable|].
  exact (power_cycle_restores_lastSaved sketch after_edge after_edge_reachable).
Defined.

Lemma commanded_drive_ok g k c T v :
  drive_ok g k v -> drive_ok g k (commanded (bounds_cmd c T) v).
Proof.
  destruct v as [[T' m] rs]. unfold drive_ok, bounds_cmd.
  intros (H1 & H2 & H3 & H4).
  destruct (c >=? T); [|destruct (c <? 0)]; cbn [commanded speed dir]; auto;
    (split; [exact H1|]; split; [exact H2|]; split; [auto|]);
    apply Forall_app; split; auto.
Qed.

(** The motor side along a run. *)
Lemma reachable_drive g s : reachable g s -> forall k, drive_ok g k (motor_view k s).
Proof.
  induction 1 as [e s H | ed s R IH | pre t1 t2 t3 s R IH]; intros k.
  - pose proof (setup_steps g _ s H k) as T.
    destruct (setup_inv g _ s H) as (T1 & T2 & T3 & ->).
    destruct (start_motors_facts g (set_steps (restore (power_on e)) T1 T2 T3))
      as (_ & _ & _ & M & Rn & _).
    cbn zeta in M, Rn. unfold drive_ok, motor_view. rewrite M, Rn.
    change (trace (set_steps (restore (power_on e)) T1 T2 T3))
      with (trace (restore (power_on e))).
    rewrite restore_runs. cbn [speed dir].
    split; [exact T|]. split; [reflexivity|]. split; [auto|].
    repeat constructor; auto.
  - rewrite isr_motor_silent. apply IH.
  - rewrite loop_motor_view. apply commanded_drive_ok, IH.
Qed.

(** X3.  The motors are never stopped and never retuned: in every state the
    running sketch reaches, each motor still has the speed set in [setup],
    its direction is forward or backward, every run command it ever received
    was one of these two, and the target is still the calibrated one. *)
Theorem motors_never_stop (g : Params) (s : State) :
  reachable g s ->
  forall k,
    speed (motor k s) = to_uint8 (motorspeed k g) /\
    (dir (motor k s) = FORWARD \/ dir (motor k s) = BACKWARD) /\
    Forall (fun d => d = FORWARD \/ d = BACKWARD) (runs k (trace s)) /\
    target_steps (distance k g) (stepsPerMM g) = Some (steps k s).
Proof.
  intros R k. pose proof (reachable_drive g s R k) as D.
  unfold drive_ok, motor_view in D. tauto.
Qed.

Lemma motors_never_stop_witness :
  reachable sketch after_edge /\
  speed (motor Ch1 after_edge) = to_uint8 (motorspeed Ch1 sketch) /\
  (dir (motor Ch1 after_edge) = FORWARD \/ dir (motor Ch1 after_edge) = BACKWARD) /\
  Forall (fun d => d = FORWARD \/ d = BACKWARD) (runs Ch1 (trace after_edge)) /\
  target_steps (distance Ch1 sketch) (stepsPerMM sketch)
    = Some (steps Ch1 after_edge).
Proof.
  split; [exact after_edge_reachable|].
  exact (motors_never_stop sketch after_edge after_edge_reachable Ch1).
Defined.

End Invariants.

(** ** More on the interrupt handlers *)

Section Handlers.

(** X4.  Handlers of different channels are independent: serving two edges
    of different channels in either order gives the same state. *)
Theorem isr_commute (e1 e2 : Edge) (s : State) :
  e_ch e1 <> e_ch e2 -> isr e1 (isr e2 s) = isr e2 (isr e1 s).
Proof.
  destruct e1 as [[] a1 b1 n1], e2 as [[] a2 b2 n2]; cbn [e_ch]; intros H;
    try contradiction; reflexivity.
Qed.

Lemma isr_commute_witness :
  isr (mkEdge Ch1 true true 5) (isr (mkEdge Ch3 true false 7) booted)
  = isr (mkEdge Ch3 true false 7) (isr (mkEdge Ch1 true true 5) booted).
Proof.
  refine (isr_commute (mkEdge Ch1 true true 5) (mkEdge Ch3 true false 7) booted _).
  cbn. discriminate.
Defined.

(** X5.  A step forward and a step back cancel: after two edges of one
    channel with opposite contributions the counter is what it was, also at
    the ends of the range of [long], where the first edge wraps around. *)
Theorem opposite_edges_cancel (ch : Channel) (a b a' b' : bool) (t t' : Z)
    (s : State) :
  is_long (cnt ch s) ->
  Bool.eqb a' b' = negb (Bool.eqb a b) ->
  cnt ch (isr (mkEdge ch a' b' t') (isr (mkEdge ch a b t) s)) = cnt ch s.
Proof.
  intros L O. rewrite !isr_cnt. cbn [e_ch]. rewrite !decide_True by reflexivity.
  rewrite to_long_add_l. unfold contribution. cbn [e_a e_b]. rewrite O.
  destruct (Bool.eqb a b); cbn [negb];
    (replace (cnt ch s + _ + _) with (cnt ch s) by lia); now apply to_long_id.
Qed.

Lemma opposite_edges_cancel_witness :
  let s := sample 596 835 835 2147483647 0 0 in
  is_long (cnt Ch1 s) /\
  cnt Ch1 (isr (mkEdge Ch1 true false 9) (isr (mkEdge Ch1 true true 8) s))
  = cnt Ch1 s.
Proof.
  cbn zeta.
  assert (L : is_long (cnt Ch1 (sample 596 835 835 2147483647 0 0)))
    by (vm_compute; split; discriminate).
  split; [exact L|].
  exact (opposite_edges_cancel Ch1 true true true false 8 9 _ L eq_refl).
Defined.

End Handlers.

(** ** More on the flush tests *)

Section FlushTiming.

Lemma elapsed_across_rollover changed d :
  0 <= d < 2 ^ 32 -> to_ulong (to_ulong (changed + d) - changed) = d.
Proof.
  intros H. unfold to_ulong. rewrite Zminus_mod_idemp_l.
  replace (changed + d - changed) with d by lia. apply Z.mod_small. lia.
Qed.

(** X6.  The idle test survives the roll-over of [millis()]: if the last
    edge of a channel was served at time [lastChange] and [d] milliseconds
    (less than [2^32]) have passed since, then with the wrapped clock value
    [(lastChange + d) mod 2^32] the flush condition is exactly
    [d > T_IDLE] and [c <> lastSaved]. *)
Theorem idle_across_rollover (ch : Channel) (d c : Z) (s : State) :
  0 <= d < 2 ^ 32 ->
  idle ch (to_ulong (lastChange ch s + d)) c s
  = (T_IDLE <? d) && negb (c =? lastSaved ch s).
Proof.
  intros H. rewrite idle_unfold. unfold idle_test.
  now rewrite elapsed_across_rollover.
Qed.

(** The last edge at [2^32 - 1000] ms, the test 6000 ms later, when
    [millis()] has wrapped to 5000. *)
Lemma idle_across_rollover_witness :
  let s := set_lastChange (sample 596 835 835 5 0 0) 4294966296 0 0 in
  to_ulong (lastChange Ch1 s + 6000) = 5000 /\
  idle Ch1 (to_ulong (lastChange Ch1 s + 6000)) 5 s
  = (T_IDLE <? 6000) && negb (5 =? lastSaved Ch1 s).
Proof.
  cbn zeta. split; [reflexivity|].
  refine (idle_across_rollover Ch1 6000 5 _ _). lia.
Defined.

End FlushTiming.

(** ** Iterations without edges *)

Section QuietIterations.

Lemma loop_encoder_silent t1 t2 t3 : encoder_silent (loop t1 t2 t3).
Proof.
  intros s k. unfold loop. cbn zeta.
  change flush1 with (flush Ch1). change flush2 with (flush Ch2).
  change flush3 with (flush Ch3).
  change bounds1 with (bounds Ch1). change bounds2 with (bounds Ch2).
  change bounds3 with (bounds Ch3).
  now rewrite telemetry_encoder_silent, !flush_encoder_silent,
    !bounds_encoder_silent.
Qed.

Lemma loop_cnt t1 t2 t3 s k : cnt k (loop t1 t2 t3 s) = cnt k s.
Proof. exact (f_equal fst (loop_encoder_silent t1 t2 t3 s k)). Qed.

(** One iteration, for one channel: either it flushes, adding one record
    and making the last saved value equal to the counter, or it leaves the
    channel's records and last saved value alone. *)
Lemma loop_flush_step t1 t2 t3 s ch :
  let s' := loop t1 t2 t3 s in
  (length (flushes ch (trace s')) = S (length (flushes ch (trace s)))
   /\ lastSaved ch s' = cnt ch s)
  \/ (flushes ch (trace s') = flushes ch (trace s)
      /\ lastSaved ch s' = lastSaved ch s).
Proof.
  cbn zeta. destruct (loop_store_facts t1 t2 t3 s ch) as (K & F & _).
  specialize (K ch). cbn zeta in K, F.
  destruct (idle ch (millis_of ch t1 t2 t3) (cnt ch s) s).
  - left. rewrite F, length_app. cbn [length]. split; [lia | exact K].
  - right. rewrite app_nil_r in F. auto.
Qed.

Lemma loop_flush_quiet t1 t2 t3 s ch :
  cnt ch s = lastSaved ch s ->
  flushes ch (trace (loop t1 t2 t3 s)) = flushes ch (trace s)
  /\ lastSaved ch (loop t1 t2 t3 s) = lastSaved ch s.
Proof.
  intros E. destruct (loop_store_facts t1 t2 t3 s ch) as (K & F & _).
  specialize (K ch). cbn zeta in K, F.
  assert (I : idle ch (millis_of ch t1 t2 t3) (cnt ch s) s = false)
    by (rewrite idle_unfold; apply idle_test_false; auto).
  rewrite I in K, F. rewrite app_nil_r in F. auto.
Qed.

Lemma loops_quiet ts s ch :
  cnt ch s = lastSaved ch s ->
  flushes ch (trace (loops ts s)) = flushes ch (trace s).
Proof.
  revert s. induction ts as [|[[t1 t2] t3] r IH]; intros s E; [reflexivity|].
  cbn [loops]. destruct (loop_flush_quiet t1 t2 t3 s ch E) as [F L].
  rewrite IH; [exact F|]. now rewrite loop_cnt, L.
Qed.

(** X7.  Wear: while no edge arrives, a channel is flushed at most once,
    however many iterations run and whatever the clock shows; and a channel
    whose counter equals its last saved value is not flushed at all. *)
Theorem one_flush_between_edges (ch : Channel) (ts : list (Z * Z * Z))
    (s : State) :
  (length (flushes ch (trace (loops ts s)))
   <= S (length (flushes ch (trace s))))%nat /\
  (cnt ch s = lastSaved ch s ->
   flushes ch (trace (loops ts s)) = flushes ch (trace s)).
Proof.
  split; [|apply loops_quiet].
  revert s. induction ts as [|[[t1 t2] t3] r IH]; intros s; [cbn; lia|].
  cbn [loops].
  destruct (loop_flush_step t1 t2 t3 s ch) as [[F L]|[F L]]; cbn zeta in F, L.
  - rewrite loops_quiet by (now rewrite loop_cnt, L). lia.
  - specialize (IH (loop t1 t2 t3 s)). rewrite F in IH. exact IH.
Qed.

(** Channel 1 moved to 5; three idle iterations later there is at most one
    record of its flush, and none for the untouched channel 2. *)
Lemma one_flush_between_edges_witness :
  let s := sample 596 835 835 5 0 0 in
  let ts := [(1000, 1000, 1000); (6000, 6000, 6000); (11000, 11000, 11000)] in
  (length (flushes Ch1 (trace (loops ts s)))
   <= S (length (flushes Ch1 (trace s))))%nat /\
  flushes Ch2 (trace (loops ts s)) = flushes Ch2 (trace s).
Proof.
  cbn zeta. split.
  - exact (proj1 (one_flush_between_edges Ch1 _ _)).
  - refine (proj2 (one_flush_between_edges Ch2 _ _) _). reflexivity.
Defined.

(** X8.  Telemetry reports the snapshot: the last thing an iteration does
    is print, for each channel, the counter as copied at the top of the
    iteration and the target, even when edges served during the iteration
    have moved the counters since. *)
Theorem telemetry_reports_snapshot (pre : nat -> list Edge) (t1 t2 t3 : Z)
    (s : State) :
  last (trace (loop_preempted pre t1 t2 t3 s))
  = Some (SerialPrint (cnt1 s) (steps1 s) (cnt2 s) (steps2 s)
            (cnt3 s) (steps3 s)).
Proof.
  pose proof (fun k => f_equal (fun v => v.1.1) (loop_motor_view pre t1 t2 t3 s k))
    as T.
  assert (C : forall c T v, (commanded (bounds_cmd c T) v).1.1 = v.1.1).
  { intros c T0 [[T' m] rs]. unfold commanded.
    destruct (bounds_cmd c T0); reflexivity. }
  pose proof (T Ch1) as T1. pose proof (T Ch2) as T2. pose proof (T Ch3) as T3.
  cbn beta in T1, T2, T3. rewrite C in T1, T2, T3.
  unfold motor_view in T1, T2, T3. cbn [fst steps] in T1, T2, T3.
  revert T1 T2 T3. unfold loop_preempted. cbn zeta.
  unfold telemetry at 1 2 3 4. cbn [trace emit steps1 steps2 steps3].
  intros T1 T2 T3. rewrite T1, T2, T3. apply last_snoc.
Qed.

End QuietIterations.

(** ** The record in the EEPROM *)

Section RecordInStore.

Lemma read_write_block_above a bs e a' :
  (a + N.of_nat (length bs) <= a')%N ->
  Eeprom.read (Eeprom.write_block a bs e) a' = Eeprom.read e a'.
Proof.
  revert a e. induction bs as [|b r IH]; intros a e H; cbn [Eeprom.write_block];
    [reflexivity|].
  cbn [length] in H. rewrite IH by lia. apply read_write_ne. lia.
Qed.

Lemma length_Persist_bytes p : length (Persist_bytes p) = 14%nat.
Proof. unfold Persist_bytes. now rewrite !length_app, !length_bytes_of. Qed.

(** X9.  Round trip of the record through the EEPROM, at any address and
    over any previous content: [EEPROM.get] after [EEPROM.put] returns the
    record written, for fields that are values of their C++ types, and no
    cell below the record or beyond its 16 bytes (14 of data and the
    padding) changes. *)
Theorem record_round_trip (a : N) (p : Persist) (e : gmap N Z) :
  is_long (p1 p) -> is_long (p2 p) -> is_long (p3 p) -> 0 <= magic p < 2 ^ 16 ->
  EEPROM_get a (EEPROM_put a p e) = p /\
  (forall a', (a' < a \/ a + 16 <= a')%N ->
     Eeprom.read (EEPROM_put a p e) a' = Eeprom.read e a').
Proof.
  intros L1 L2 L3 M. split.
  - rewrite EEPROM_get_put, !to_long_id by assumption.
    unfold to_uint16. rewrite Z.mod_small by exact M. now destruct p.
  - intros a' [Lo|Hi]; unfold EEPROM_put.
    + now apply read_write_block_below.
    + apply read_write_block_above. rewrite length_Persist_bytes. lia.
Qed.

Lemma record_round_trip_witness :
  let p := {| p1 := -7; p2 := 2147483647; p3 := 0; magic := 48879 |} in
  EEPROM_get 100 (EEPROM_put 100 p ∅) = p /\
  (forall a', (a' < 100 \/ 100 + 16 <= a')%N ->
     Eeprom.read (EEPROM_put 100 p ∅) a' = Eeprom.read ∅ a').
Proof.
  cbn zeta.
  refine (record_round_trip 100
            {| p1 := -7; p2 := 2147483647; p3 := 0; magic := 48879 |} ∅ _ _ _ _);
    cbn [p1 p2 p3 magic]; unfold is_long, LONG_MIN, LONG_MAX; lia.
Defined.

Lemma saveEEPROM_tail o1 o2 o3 e a :
  (16 <= a)%N -> Eeprom.read (saveEEPROM o1 o2 o3 e) a = Eeprom.read e a.
Proof.
  intros H. unfold saveEEPROM, EEPROM_put.
  apply read_write_block_above. rewrite length_Persist_bytes. lia.
Qed.

Lemma flushed_tail f ch c v a :
  (16 <= a)%N -> Eeprom.read (flushed f ch c v).1.1 a = Eeprom.read v.1.1 a.
Proof.
  intros H. destruct f; [|reflexivity]. destruct v as [[e log] [[x y] z]].
  destruct ch; cbn [flushed with_saved fst]; now apply saveEEPROM_tail.
Qed.

Lemma eeprom_of_view s : eeprom s = (store_view s).1.1.
Proof. reflexivity. Qed.

(** X10.  The sketch keeps to its record: neither [setup] nor a handler
    nor an iteration of [loop] changes an EEPROM cell at address 16 (the
    size of the record with its padding) or above. *)
Theorem eeprom_beyond_record_untouched (a : N) :
  (16 <= a)%N ->
  (forall g s0 s, setup g s0 = Some s ->
     Eeprom.read (eeprom s) a = Eeprom.read (eeprom s0) a) /\
  (forall ed s, Eeprom.read (eeprom (isr ed s)) a = Eeprom.read (eeprom s) a) /\
  (forall pre t1 t2 t3 s,
     Eeprom.read (eeprom (loop_preempted pre t1 t2 t3 s)) a
     = Eeprom.read (eeprom s) a).
Proof.
  intros H. split; [|split].
  - intros g s0 s S. destruct (setup_inv g s0 s S) as (T1 & T2 & T3 & ->).
    destruct (after_restore g T1 T2 T3 (restore s0)) as (_ & _ & E & _).
    cbn zeta in E. rewrite E. unfold restore.
    destruct (loadEEPROM (0, 0, 0) (eeprom s0)) as [[] [[o1 o2] o3]].
    + reflexivity.
    + cbn [adopt eeprom call_saveEEPROM set_eeprom emit set_cnt set_lastSaved].
      apply saveEEPROM_tail. lia.
  - intros ed s. rewrite !eeprom_of_view. now rewrite isr_store_silent.
  - intros pre t1 t2 t3 s. rewrite !eeprom_of_view.
    unfold loop_preempted. cbn zeta.
    change flush1 with (flush Ch1). change flush2 with (flush Ch2).
    change flush3 with (flush Ch3).
    change bounds1 with (bounds Ch1). change bounds2 with (bounds Ch2).
    change bounds3 with (bounds Ch3).
    rewrite telemetry_store_silent, isrs_store_silent.
    rewrite flush_store_view, flushed_tail, isrs_store_silent by lia.
    rewrite flush_store_view, flushed_tail, isrs_store_silent by lia.
    rewrite flush_store_view, flushed_tail, isrs_store_silent by lia.
    rewrite bounds_store_silent, isrs_store_silent.
    rewrite bounds_store_silent, isrs_store_silent.
    rewrite bounds_store_silent, isrs_store_silent.
    reflexivity.
Qed.

Lemma eeprom_beyond_record_untouched_witness :
  (16 <= 20)%N /\
  Eeprom.read (eeprom (loop_preempted quiet 6000 6000 6000
                         (sample 596 835 835 5 0 0))) 20
  = Eeprom.read (eeprom (sample 596 835 835 5 0 0)) 20.
Proof.
  assert (H : (16 <= 20)%N) by lia.
  split; [exact H|].
  exact (proj2 (proj2 (eeprom_beyond_record_untouched 20 H)) quiet 6000 6000 6000
           (sample 596 835 835 5 0 0)).
Defined.

End RecordInStore.

(** ** The clearing sketch *)

Section ClearSketch.

Lemma update_read a b e a' :
  Eeprom.read (Clear.EEPROM_update a b e).1 a'
  = if decide (a' = a) then to_uint8 b else Eeprom.read e a'.
Proof.
  unfold Clear.EEPROM_update.
  destruct (Z.eqb_spec (Eeprom.read e a) (to_uint8 b)) as [E|N]; cbn [fst].
  - case_decide; congruence.
  - case_decide as D.
    + subst. apply read_write_eq.
    + apply read_write_ne. congruence.
Qed.

Lemma sweep_read n i e a :
  Eeprom.read (Clear.sweep i n e).1 a
  = if decide (i <= a < i + N.of_nat n)%N then 255 else Eeprom.read e a.
Proof.
  revert i e. induction n as [|k IH]; intros i e; cbn [Clear.sweep].
  - cbn [fst]. rewrite decide_False by lia. reflexivity.
  - pose proof (update_read i 255 e) as U.
    destruct (Clear.EEPROM_update i 255 e) as [e1 w1]. cbn [fst] in U.
    specialize (IH (N.succ i) e1).
    destruct (Clear.sweep (N.succ i) k e1) as [e2 w2]. cbn [fst] in IH |- *.
    rewrite IH, U.
    repeat case_decide; try reflexivity; try lia.
Qed.

Lemma dirty_ext n i e e' :
  (forall a, (i <= a)%N -> Eeprom.read e a = Eeprom.read e' a) ->
  Clear.dirty i n e = Clear.dirty i n e'.
Proof.
  revert i. induction n as [|k IH]; intros i H; cbn [Clear.dirty]; [reflexivity|].
  rewrite (H i) by lia. f_equal. apply IH. intros a Ha. apply H. lia.
Qed.

Lemma sweep_count n i e : (Clear.sweep i n e).2 = Clear.dirty i n e.
Proof.
  revert i e. induction n as [|k IH]; intros i e; cbn [Clear.sweep Clear.dirty];
    [reflexivity|].
  pose proof (update_read i 255 e) as U.
  unfold Clear.EEPROM_update in U |- *.
  change (to_uint8 255) with 255 in U |- *.
  destruct (Z.eqb_spec (Eeprom.read e i) 255) as [E|N]; cbn [fst] in U.
  - specialize (IH (N.succ i) e).
    destruct (Clear.sweep (N.succ i) k e) as [e2 w2]. cbn [snd] in IH |- *.
    now rewrite IH.
  - specialize (IH (N.succ i) (Eeprom.write i 255 e)).
    destruct (Clear.sweep (N.succ i) k (Eeprom.write i 255 e)) as [e2 w2].
    cbn [snd] in IH |- *. rewrite IH. f_equal.
    apply dirty_ext. intros a Ha. rewrite U. now rewrite decide_False by lia.
Qed.

Lemma sweep_clean n i e :
  (forall a, (i <= a < i + N.of_nat n)%N -> Eeprom.read e a = 255) ->
  Clear.sweep i n e = (e, 0%nat).
Proof.
  revert i. induction n as [|k IH]; intros i H; cbn [Clear.sweep]; [reflexivity|].
  unfold Clear.EEPROM_update. change (to_uint8 255) with 255.
  rewrite (H i) by lia. cbn [Z.eqb Pos.eqb].
  rewrite IH; [reflexivity|]. intros a Ha. apply H. lia.
Qed.

(** X11.  The clearing sketch, on a device of [len] cells with any content:
    afterwards every cell of the device reads [0xFF] and nothing beyond the
    device has changed; the cells programmed are exactly those that did not
    read [0xFF] before; and running the sketch again programs no cell and
    leaves the content as it is. *)
Theorem clear_erases_and_spares (len : nat) (e : gmap N Z) :
  let e' := (Clear.setup len e).1 in
  (forall a, (a < N.of_nat len)%N -> Eeprom.read e' a = 255) /\
  (forall a, (N.of_nat len <= a)%N -> Eeprom.read e' a = Eeprom.read e a) /\
  (Clear.setup len e).2 = Clear.dirty 0 len e /\
  Clear.setup len e' = (e', 0%nat).
Proof.
  cbn zeta. unfold Clear.setup.
  split; [|split; [|split]].
  - intros a H. rewrite sweep_read. now rewrite decide_True by lia.
  - intros a H. rewrite sweep_read. now rewrite decide_False by lia.
  - apply sweep_count.
  - apply sweep_clean. intros a H. rewrite sweep_read.
    now rewrite decide_True by lia.
Qed.

Lemma clear_erases_and_spares_witness :
  let e := saveEEPROM 12 (-7) 3 ∅ in
  Eeprom.read (Clear.setup 1024 e).1 12 = 255 /\
  Eeprom.read (Clear.setup 1024 e).1 5000 = Eeprom.read e 5000.
Proof.
  cbn zeta. split.
  - refine (proj1 (clear_erases_and_spares 1024 _) 12%N _). lia.
  - refine (proj1 (proj2 (clear_erases_and_spares 1024 _)) 5000%N _). lia.
Defined.

Lemma erased_record e :
  (forall a, (a < 14)%N -> Eeprom.read e a = 255) ->
  EEPROM_get 0 e = {| p1 := -1; p2 := -1; p3 := -1; magic := 65535 |}.
Proof.
  intros H. unfold EEPROM_get. cbn [Eeprom.read_block N.succ Pos.succ].
  rewrite !H by lia. vm_compute. reflexivity.
Qed.

(** X12.  After the clearing sketch has run on a device of at least 14
    cells, the main sketch finds no valid record: [loadEEPROM] returns
    [false] and keeps its parameters, and [setup] completes with all
    counters and last saved values 0 and writes one fresh record, all zero
    under the sentinel. *)
Theorem clear_then_setup_starts_from_zero (len : nat) (e : gmap N Z)
    (o : Z * Z * Z) :
  (14 <= len)%nat ->
  let e' := (Clear.setup len e).1 in
  loadEEPROM o e' = (false, o) /\
  exists s,
    setup sketch (power_on e') = Some s /\
    (cnt1 s, cnt2 s, cnt3 s) = (0, 0, 0) /\
    (lastSaved1 s, lastSaved2 s, lastSaved3 s) = (0, 0, 0) /\
    puts (trace s) = [ {| p1 := 0; p2 := 0; p3 := 0; magic := MAGIC |} ].
Proof.
  intros L. cbn zeta.
  assert (G : EEPROM_get 0 (Clear.setup len e).1
              = {| p1 := -1; p2 := -1; p3 := -1; magic := 65535 |}).
  { apply erased_record. intros a H. unfold Clear.setup. rewrite sweep_read.
    now rewrite decide_True by lia. }
  split.
  - unfold loadEEPROM. rewrite G. reflexivity.
  - eexists. split; [apply setup_sketch|].
    destruct (after_restore sketch 596 835 835
                (restore (power_on (Clear.setup len e).1))) as (C & S & _ & P).
    cbn zeta in C, S, P. rewrite C, S, P.
    rewrite restore_invalid
      by (cbn [eeprom power_on]; rewrite G; cbn; unfold MAGIC; lia).
    repeat split.
Qed.

Lemma clear_then_setup_starts_from_zero_witness :
  let e' := (Clear.setup 1024 (saveEEPROM 12 (-7) 3 ∅)).1 in
  (14 <= 1024)%nat /\
  loadEEPROM (1, 2, 3) e' = (false, (1, 2, 3)).
Proof.
  cbn zeta.
  assert (L : (14 <= 1024)%nat) by lia.
  split; [exact L|].
  exact (proj1 (clear_then_setup_starts_from_zero 1024 _ (1, 2, 3) L)).
Defined.

End ClearSketch.

(** ** The sign of a target *)

Section TargetSign.

Lemma binary_round_aux_sign prec emax sx mx ex lx :
  binary_round_aux prec emax sx mx ex lx = S754_nan
  \/ sign_bit (binary_round_aux prec emax sx mx ex lx) = sx.
Proof.
  unfold binary_round_aux.
  destruct (shr_fexp prec emax mx ex lx) as [mrs' e'].
  destruct (shr_fexp prec emax _ e' loc_Exact) as [mrs'' e''].
  destruct (shr_m mrs'') as [|m|m]; [right; reflexivity | | left; reflexivity].
  destruct (e'' <=? emax - prec)%Z; right; reflexivity.
Qed.

Lemma mul32_sign x y :
  Float.mul32 x y = S754_nan
  \/ sign_bit (Float.mul32 x y) = xorb (sign_bit x) (sign_bit y).
Proof.
  unfold Float.mul32.
  destruct x as [sx|sx| |sx mx ex], y as [sy|sy| |sy my ey]; cbn [SFmul sign_bit];
    auto.
  apply binary_round_aux_sign.
Qed.

Lemma int_of_float_sign x z :
  Float.int_of_float x = Some z ->
  if sign_bit x then z <= 0 else 0 <= z.
Proof.
  destruct x as [s|s| |s m e]; cbn [Float.int_of_float]; try discriminate.
  - intros [= <-]. destruct s; cbn; lia.
  - case_match; [|discriminate]. intros [= <-].
    pose proof (Z.shiftl_nonneg (Zpos m) e) as N.
    cbn [sign_bit Float.trunc]. destruct s; cbn [cond_Zopp]; lia.
Qed.

(** X13.  The sign of a target follows the signs of its factors: whenever
    [int(distance*stepsPerMM)] is defined, it is not negative if the two
    factors have the same sign bit and not positive if they differ; so a
    negative target needs a negative distance or a negative [stepsPerMM]. *)
Theorem target_sign (d spmm : spec_float) (z : Z) :
  target_steps d spmm = Some z ->
  if xorb (sign_bit d) (sign_bit spmm) then z <= 0 else 0 <= z.
Proof.
  unfold target_steps. intros H.
  pose proof (int_of_float_sign _ _ H) as S.
  destruct (mul32_sign d spmm) as [N|E].
  - rewrite N in H. discriminate.
  - now rewrite E in S.
Qed.

Lemma target_sign_witness :
  target_steps (distance1 sketch) (stepsPerMM sketch) = Some 596 /\
  (if xorb (sign_bit (distance1 sketch)) (sign_bit (stepsPerMM sketch))
   then 596 <= 0 else 0 <= 596).
Proof.
  assert (H : target_steps (distance1 sketch) (stepsPerMM sketch) = Some 596)
    by (vm_compute; reflexivity).
  split; [exact H|].
  exact (target_sign (distance1 sketch) (stepsPerMM sketch) 596 H).
Defined.

End TargetSign.

(** ** The tensioning sketch *)

Section TensionSketch.

(** X14.  [Wire_Tensioning.ino] starts the motors the way the main sketch
    does, with the speeds 0, 20 and 0 in place of the configured ones: only
    motor 2 turns, all three are set forward, and neither the counters nor
    the EEPROM nor the record of writes is touched; its empty [loop] keeps
    that state for ever. *)
Theorem tension_is_motor_start (s : State) (n : nat) :
  forall g, motorspeed1 g = 0 -> motorspeed2 g = 20 -> motorspeed3 g = 0 ->
  Tension.setup s = start_motors g s /\
  (forall k, motor k (Tension.setup s)
             = mkMotor (match k with Ch2 => 20 | _ => 0 end) FORWARD) /\
  store_view (Tension.setup s) = store_view s /\
  (forall k, encoder_view k (Tension.setup s) = encoder_view k s) /\
  Nat.iter n Tension.loop (Tension.setup s) = Tension.setup s.
Proof.
  intros g G1 G2 G3.
  assert (E : Tension.setup s = start_motors g s)
    by (unfold Tension.setup, start_motors; now rewrite G1, G2, G3).
  destruct (start_motors_facts g s) as (V & En & _ & M & _).
  cbn zeta in V, En, M.
  split; [exact E|]. rewrite E.
  split; [|split; [exact V|split; [exact En|]]].
  - intros k. rewrite M. destruct k; cbn [motorspeed]; now rewrite ?G1, ?G2, ?G3.
  - induction n as [|n IH]; [reflexivity|]. cbn [Nat.iter]. exact IH.
Qed.

Lemma tension_is_motor_start_witness :
  let g := mkParams (distance1 sketch) (distance2 sketch) (distance3 sketch)
             0 20 0 (winch_diameter sketch) (hall_feedback_resolution sketch)
             (delaytime sketch) in
  Tension.setup (power_on ∅) = start_motors g (power_on ∅) /\
  motor Ch2 (Tension.setup (power_on ∅)) = mkMotor 20 FORWARD.
Proof.
  cbn zeta.
  destruct (tension_is_motor_start (power_on ∅) 3
              (mkParams (distance1 sketch) (distance2 sketch) (distance3 sketch)
                 0 20 0 (winch_diameter sketch) (hall_feedback_resolution sketch)
                 (delaytime sketch)) eq_refl eq_refl eq_refl) as (E & M & _).
  split; [exact E | exact (M Ch2)].
Defined.

End TensionSketch.

(** ** Edges served during an iteration *)

Section Preemption.

Lemma isrs_after_silent f eds s :
  encoder_silent f ->
  forall k, encoder_view k (isrs eds (f s)) = encoder_view k (isrs eds s).
Proof. intros E. apply isrs_encoder_ext. intros k. apply E. Qed.

(** X15.  No edge is lost to an iteration: after an iteration during which
    edges were served, every counter and time stamp is what serving the same
    edges alone, in the same order, would have made it; the statements of
    [loop] themselves never write them. *)
Theorem no_edge_lost (pre : nat -> list Edge) (t1 t2 t3 : Z) (s : State)
    (k : Channel) :
  encoder_view k (loop_preempted pre t1 t2 t3 s)
  = encoder_view k (isrs (served pre) s).
Proof.
  unfold served. rewrite !isrs_app.
  unfold loop_preempted. cbn zeta.
  change flush1 with (flush Ch1). change flush2 with (flush Ch2).
  change flush3 with (flush Ch3).
  change bounds1 with (bounds Ch1). change bounds2 with (bounds Ch2).
  change bounds3 with (bounds Ch3).
  rewrite telemetry_encoder_silent.
  apply isrs_encoder_ext. intros k6. rewrite flush_encoder_silent.
  apply isrs_encoder_ext. intros k5. rewrite flush_encoder_silent.
  apply isrs_encoder_ext. intros k4. rewrite flush_encoder_silent.
  apply isrs_encoder_ext. intros k3. rewrite bounds_encoder_silent.
  apply isrs_encoder_ext. intros k2. rewrite bounds_encoder_silent.
  apply isrs_encoder_ext. intros k1. rewrite bounds_encoder_silent.
  reflexivity.
Qed.

End Preemption.

(** ** The marker in the EEPROM *)

Section MarkerBytes.

Lemma read_byte e a : 0 <= Eeprom.read e a < 256.
Proof.
  unfold Eeprom.read. destruct (e !! a); [apply Z.mod_pos_bound|]; lia.
Qed.

(** X16.  The validity marker is the two bytes at addresses 12 and 13, low
    byte first: the stored record is accepted exactly when cell 12 holds
    [0xEF] and cell 13 holds [0xBE], whatever the other cells hold. *)
Theorem marker_bytes (e : gmap N Z) (o : Z * Z * Z) :
  fst (loadEEPROM o e) = true <->
  Eeprom.read e 12 = 0xEF /\ Eeprom.read e 13 = 0xBE.
Proof.
  unfold loadEEPROM.
  assert (M : magic (EEPROM_get 0 e) = Eeprom.read e 12 + 256 * Eeprom.read e 13).
  { unfold EEPROM_get, Persist_of_bytes. cbn [magic].
    cbn [Eeprom.read_block N.succ Pos.succ drop take LE.value_of].
    change (N.succ (N.succ (N.succ (N.succ (N.succ (N.succ (N.succ (N.succ
      (N.succ (N.succ (N.succ (N.succ 0)))))))))))) with 12%N.
    change (N.succ 12) with 13%N.
    pose proof (read_byte e 12). pose proof (read_byte e 13).
    rewrite !Z.mod_small by lia. lia. }
  pose proof (read_byte e 12) as B12. pose proof (read_byte e 13) as B13.
  destruct (Z.eqb_spec (magic (EEPROM_get 0 e)) MAGIC) as [E|N]; cbn [fst].
  - rewrite M in E. unfold MAGIC in E. split; [intros _; lia | reflexivity].
  - rewrite M in N. unfold MAGIC in N. split; [discriminate | intros [? ?]; lia].
Qed.

End MarkerBytes.

(** ** Channels in isolation *)

Section Isolation.

(** X17.  A channel's counter and time stamp are determined by the edges of
    that channel alone, in their order: edges of the other channels, however
    interleaved, make no difference; and the time stamp is the time of the
    channel's last edge, or unchanged when it had none. *)
Theorem channel_isolation (ch : Channel) (eds : list Edge) (s : State) :
  encoder_view ch (isrs eds s) = encoder_view ch (isrs (edges_of ch eds) s) /\
  lastChange ch (isrs eds s)
  = match last (edges_of ch eds) with
    | Some ed => e_now ed
    | None => lastChange ch s
    end.
Proof.
  split.
  - revert s. unfold edges_of.
    induction eds as [|ed r IH]; intros s; [reflexivity|].
    rewrite isrs_cons, IH. rewrite filter_cons. case_decide as D.
    + now rewrite isrs_cons.
    + apply isrs_encoder_ext1. rewrite isr_encoder_view.
      now rewrite decide_False.
  - induction eds as [|ed r IH] using rev_ind; [reflexivity|].
    unfold edges_of in *. rewrite isrs_snoc, isr_lastChange, filter_app, filter_cons.
    case_decide as D.
    + now rewrite filter_nil, last_snoc.
    + rewrite filter_nil, app_nil_r. exact IH.
Qed.

End Isolation.

(** ** A counter at rest *)

Section AtRest.

Lemma loop_motor_view_quiet t1 t2 t3 s k :
  motor_view k (loop t1 t2 t3 s)
  = commanded (bounds_cmd (cnt k s) (steps k s)) (motor_view k s).
Proof. rewrite loop_is_unpreempted. apply loop_motor_view. Qed.

Lemma commanded_steps cmd v : (commanded cmd v).1.1 = v.1.1.
Proof. destruct v as [[T m] rs], cmd; reflexivity. Qed.

Lemma loops_motor_view ts s k :
  motor_view k (loops ts s)
  = Nat.iter (length ts) (commanded (bounds_cmd (cnt k s) (steps k s)))
      (motor_view k s).
Proof.
  revert s. induction ts as [|[[t1 t2] t3] r IH]; intros s; [reflexivity|].
  cbn [loops length]. rewrite IH, loop_cnt.
  rewrite (steps_of_view k (loop t1 t2 t3 s)), loop_motor_view_quiet.
  rewrite commanded_steps, <- steps_of_view.
  now rewrite Nat.iter_succ_r.
Qed.

Lemma iter_commanded d n T m rs :
  Nat.iter (S n) (commanded (Some d)) (T, m, rs)
  = (T, mkMotor (speed m) d, rs ++ repeat d (S n)).
Proof.
  induction n as [|n IH]; [reflexivity|].
  rewrite Nat.iter_succ, IH. cbn [commanded speed].
  rewrite <- app_assoc. do 2 f_equal.
  change (repeat d (S n) ++ [d]) with (repeat d (S n) ++ repeat d 1).
  rewrite <- repeat_app. f_equal. lia.
Qed.

(** X18.  While a counter rests beyond a bound, the controller repeats its
    command in every iteration: over any number [n >= 1] of iterations
    without edges the motor receives [n] times [BACKWARD] when the counter is
    at or above the target, [n] times [FORWARD] when it is below zero and
    below the target, and nothing, keeping its direction, when it is within
    the bounds. *)
Theorem command_repeats_at_rest (k : Channel) (t : Z * Z * Z)
    (ts : list (Z * Z * Z)) (s : State) :
  let n := length (t :: ts) in
  let s' := loops (t :: ts) s in
  (cnt k s >= steps k s ->
     runs k (trace s') = runs k (trace s) ++ repeat BACKWARD n
     /\ dir (motor k s') = BACKWARD) /\
  (cnt k s < steps k s -> cnt k s < 0 ->
     runs k (trace s') = runs k (trace s) ++ repeat FORWARD n
     /\ dir (motor k s') = FORWARD) /\
  (0 <= cnt k s < steps k s ->
     runs k (trace s') = runs k (trace s) /\ motor k s' = motor k s).
Proof.
  cbn zeta. pose proof (loops_motor_view (t :: ts) s k) as V.
  split; [|split].
  - intros H. rewrite bounds_cmd_backward in V by lia.
    unfold motor_view in V at 2. cbn [length] in V. rewrite iter_commanded in V.
    apply motor_view_inv in V. destruct V as (_ & M & R). rewrite M, R. auto.
  - intros H1 H2. rewrite bounds_cmd_forward in V by lia.
    unfold motor_view in V at 2. cbn [length] in V. rewrite iter_commanded in V.
    apply motor_view_inv in V. destruct V as (_ & M & R). rewrite M, R. auto.
  - intros H. rewrite bounds_cmd_none in V by lia.
    assert (I : forall n v, Nat.iter n (commanded None) v = v).
    { induction n as [|n IH]; intros v; [reflexivity|].
      rewrite Nat.iter_succ, IH. reflexivity. }
    rewrite I in V. unfold motor_view in V. injection V as _ M R. auto.
Qed.

Lemma command_repeats_at_rest_witness :
  let s := sample 596 835 835 600 (-2) 300 in
  let ts := [(200, 200, 200); (300, 300, 300)] in
  let s' := loops ((100, 100, 100) :: ts) s in
  (runs Ch1 (trace s') = runs Ch1 (trace s) ++ repeat BACKWARD 3
     /\ dir (motor Ch1 s') = BACKWARD) /\
  (runs Ch2 (trace s') = runs Ch2 (trace s) ++ repeat FORWARD 3
     /\ dir (motor Ch2 s') = FORWARD) /\
  (runs Ch3 (trace s') = runs Ch3 (trace s) /\ motor Ch3 s' = motor Ch3 s).
Proof.
  cbn zeta.
  pose (s := sample 596 835 835 600 (-2) 300).
  pose (ts := [(200, 200, 200); (300, 300, 300)]).
  split; [|split].
  - refine (proj1 (command_repeats_at_rest Ch1 (100, 100, 100) ts s) _).
    cbn. lia.
  - refine (proj1 (proj2 (command_repeats_at_rest Ch2 (100, 100, 100) ts s)) _ _);
      cbn; lia.
  - refine (proj2 (proj2 (command_repeats_at_rest Ch3 (100, 100, 100) ts s)) _).
    cbn. lia.
Defined.

(** X19.  A long enough rest brings the EEPROM up to date with the
    snapshot: if, in a state the running sketch has reached, every channel
    has been idle for more than [T_IDLE] when its flush test reads the time
    stamp, then after that iteration, whatever edges were served during it,
    every last saved value equals the counter as copied at the top of the
    iteration and the EEPROM holds exactly these three values under the
    sentinel; for a channel without an edge during the iteration that is
    the counter itself. *)
Theorem rest_brings_storage_up_to_date (g : Params) (pre : nat -> list Edge)
    (t1 t2 t3 : Z) (s : State) :
  reachable g s ->
  (forall k, to_ulong (millis_of k t1 t2 t3 - lastChange_at_test k pre s)
             > T_IDLE) ->
  let s' := loop_preempted pre t1 t2 t3 s in
  (forall k, lastSaved k s' = cnt k s) /\
  EEPROM_get 0 (eeprom s')
  = {| p1 := cnt1 s; p2 := cnt2 s; p3 := cnt3 s; magic := MAGIC |} /\
  (forall k, Forall (fun ed => e_ch ed <> k) (served pre) ->
     cnt k s' = cnt k s /\ lastSaved k s' = cnt k s').
Proof.
  intros R Idle. cbn zeta.
  destruct (reachable_mirror g s R) as [M C].
  unfold mirror_ok, store_view in M. destruct M as (E0 & _).
  destruct (loop_preempted_store_facts pre t1 t2 t3 s Ch1) as (K & _ & E & U).
  cbn zeta in K, E, U.
  assert (F : forall k, fires k pre t1 t2 t3 s
                        = negb (cnt k s =? lastSaved k s)).
  { intros k. unfold fires, idle_test.
    specialize (Idle k). apply Z.gt_lt, Z.ltb_lt in Idle. now rewrite Idle. }
  assert (S : forall k, lastSaved k (loop_preempted pre t1 t2 t3 s) = cnt k s).
  { intros k. rewrite K, F.
    destruct (Z.eqb_spec (cnt k s) (lastSaved k s)); cbn [negb]; congruence. }
  split; [exact S|]. split.
  - pose proof (S Ch1) as S1. pose proof (S Ch2) as S2. pose proof (S Ch3) as S3.
    cbn [lastSaved cnt] in S1, S2, S3.
    destruct (fires Ch1 pre t1 t2 t3 s || fires Ch2 pre t1 t2 t3 s
              || fires Ch3 pre t1 t2 t3 s) eqn:Any.
    + rewrite (E eq_refl), S1, S2, S3.
      pose proof (C Ch1) as L1. pose proof (C Ch2) as L2. pose proof (C Ch3) as L3.
      cbn [cnt] in L1, L2, L3. now rewrite !to_long_id by assumption.
    + rewrite (U eq_refl), E0.
      pose proof (K Ch1) as K1. pose proof (K Ch2) as K2. pose proof (K Ch3) as K3.
      apply orb_false_elim in Any. destruct Any as [Any I3].
      apply orb_false_elim in Any. destruct Any as [I1 I2].
      rewrite I1 in K1. rewrite I2 in K2. rewrite I3 in K3.
      cbn [lastSaved] in K1, K2, K3. congruence.
  - intros k Q.
    assert (Ck : cnt k (loop_preempted pre t1 t2 t3 s) = cnt k s).
    { pose proof (f_equal fst (no_edge_lost_view pre t1 t2 t3 s k)) as N.
      pose proof (f_equal fst (isrs_other_channel (served pre) s k Q)) as O.
      cbn [encoder_view fst] in N, O. congruence. }
    split; [exact Ck | now rewrite Ck].
Qed.

(** The booted sketch with one edge on channel 1 (count 1, last saved 0):
    an iteration at 6000 ms during which an edge of channel 2 arrives after
    the flush tests.  Channel 1 is flushed and the EEPROM holds the snapshot
    (1, 0, 0); channel 2 has meanwhile counted on. *)
Lemma rest_brings_storage_up_to_date_witness :
  let s := edge_pending in
  let s' := loop_preempted edge_after_tests 6000 6000 6000 s in
  reachable sketch s /\
  (cnt Ch1 s = 1 /\ lastSaved Ch1 s = 0) /\
  (forall k, lastSaved k s' = cnt k s) /\
  EEPROM_get 0 (eeprom s')
  = {| p1 := cnt1 s; p2 := cnt2 s; p3 := cnt3 s; magic := MAGIC |} /\
  (forall k, Forall (fun ed => e_ch ed <> k) (served edge_after_tests) ->
     cnt k s' = cnt k s /\ lastSaved k s' = cnt k s').
Proof.
  cbn zeta. split; [exact edge_pending_reachable|].
  split; [split; vm_compute; reflexivity|].
  refine (rest_brings_storage_up_to_date sketch edge_after_tests 6000 6000 6000
            edge_pending edge_pending_reachable _).
  intros []; vm_compute; reflexivity.
Defined.

End AtRest.
